(** * Shift Scheduling Optimizer: the scheduling core of [src/app.py]

    The script reads a scheduling request from Streamlit widgets, builds a
    PuLP model (binary shift variables, one shared continuous [penalty]),
    solves it and decodes the solver's values into a worker-by-date table.

    Conventions of this development:
    - a Python [str] is a Rocq [string]; every character stands for the
      code point with the same number (code points below 256);
    - a [datetime.date] is its proleptic Gregorian ordinal
      ([date.toordinal()]), so comparison, difference in days and
      [+ timedelta(days=k)] are integer arithmetic;
    - a Python [float] delivered by the solver is an exact rational;
    - [strftime] and the PuLP solver are library code: they are interfaces
      here ([Calendar], [Solver]) and every result holds for all instances;
    - widget results are inputs ([Inputs]); the value ranges the widgets
      enforce (min_value, max_value) are stated as hypotheses where a
      result needs them. *)

From Stdlib Require Import ZArith QArith Lqa String Ascii DecimalString.
From stdpp Require Import gmap strings list.

Local Open Scope Z_scope.

(** ** Python strings: [str.split(',')] and [str.strip()] *)

Module PyStr.

(** [ch.isspace()] for a code point below 256:
  TAB LF VT FF CR, FS GS RS US, SPACE, NEL (0x85), NBSP (0xA0). *)
Definition isspace (c : ascii) : bool :=
let n := N_of_ascii c in
((9 <=? n) && (n <=? 13) || (28 <=? n) && (n <=? 32)
 || (n =? 133) || (n =? 160))%N.

Fixpoint lstrip (s : string) : string :=
match s with
| EmptyString => EmptyString
| String c s' => if isspace c then lstrip s' else s
end.

Fixpoint rstrip (s : string) : string :=
match s with
| EmptyString => EmptyString
| String c s' =>
    match rstrip s' with
    | EmptyString => if isspace c then EmptyString else String c EmptyString
    | r => String c r
    end
end.

(** [s.strip()]: leading and trailing whitespace removed. *)
Definition strip (s : string) : string := rstrip (lstrip s).

(** [s.split(sep)] for a one-character separator: the empty string splits
  into one empty field, and n separators give n+1 fields. *)
Fixpoint split (sep : ascii) (s : string) : list string :=
match s with
| EmptyString => [EmptyString]
| String c s' =>
    if Ascii.eqb c sep then EmptyString :: split sep s'
    else match split sep s' with
         | h :: t => String c h :: t
         | [] => [String c EmptyString]
         end
end.

(** [sep.join(fields)] *)
Fixpoint join (sep : ascii) (fields : list string) : string :=
match fields with
| [] => EmptyString
| [f] => f
| f :: rest => f +:+ String sep (join sep rest)
end.

(** every character of [s] is whitespace *)
Fixpoint all_space (s : string) : bool :=
match s with
| EmptyString => true
| String c s' => isspace c && all_space s'
end.

(** [c in s] for a character *)
Fixpoint contains (c : ascii) (s : string) : bool :=
match s with
| EmptyString => false
| String d s' => Ascii.eqb d c || contains c s'
end.

End PyStr.

(** ** Python dicts that keep insertion order *)

Section OrderedDict.
Context {K V : Type} `{EqDecision K}.

Definition odict := list (K * V).

(** [d.get(k)] *)
Fixpoint od_get (k : K) (d : odict) : option V :=
  match d with
  | [] => None
  | (k', v) :: d' => if decide (k' = k) then Some v else od_get k d'
  end.

(** [d[k] = v]: an existing key keeps its position, a new key goes last. *)
Fixpoint od_set (k : K) (v : V) (d : odict) : odict :=
  match d with
  | [] => [(k, v)]
  | (k', v') :: d' =>
      if decide (k' = k) then (k', v) :: d' else (k', v') :: od_set k v d'
  end.

(** [{k: v for (k, v) in items}] *)
Definition od_of_items (items : list (K * V)) : odict :=
  fold_left (fun d kv => od_set kv.1 kv.2 d) items [].

Definition od_keys (d : odict) : list K := d.*1.
End OrderedDict.

Arguments odict : clear implicits.

(** [range(n)] *)
Definition range (n : Z) : list Z := Z.of_nat <$> seq 0 (Z.to_nat n).

(** ** The PuLP objects the script builds *)

(** A decision variable of the model: the shared [penalty], or the object
    stored in the dict [x] under the key [(worker, date_str, shift_type)].
    PuLP tells variables apart by object identity; [x] holds one object per
    key, so the key identifies the variable. *)
Inductive LpVar :=
  | penalty
  | Xvar (worker date_str : string) (shift_type : Z).

#[global] Instance LpVar_eq_dec : EqDecision LpVar.
Proof. solve_decision. Defined.

Inductive LpCategory := LpContinuous | LpBinary.

(** What the [LpVariable(...)] constructor call fixes. *)
Record LpVariable := {
  name : string;
  lowBound : option Q;
  upBound : option Q;
  cat : LpCategory
}.

Definition str_of_shift_type (k : Z) : string :=
  NilZero.string_of_int (Z.to_int k).

(** lines 50 and 56-59 *)
Definition declared (v : LpVar) : LpVariable :=
  match v with
  | penalty =>
      {| name := "penalty"; lowBound := Some 0%Q; upBound := None;
         cat := LpContinuous |}
  | Xvar worker date_str shift_type =>
      {| name := "x_" +:+ worker +:+ "_" +:+ date_str +:+ "_"
                 +:+ str_of_shift_type shift_type;
         lowBound := None; upBound := None; cat := LpBinary |}
  end.

(** An affine expression: coefficient-variable terms plus a constant. *)
Record LpAffineExpression := {
  terms : list (Q * LpVar);
  constant : Q
}.

Definition lp_var (v : LpVar) : LpAffineExpression :=
  {| terms := [(1%Q, v)]; constant := 0%Q |}.
Definition lp_const (q : Q) : LpAffineExpression :=
  {| terms := []; constant := q |}.
Definition lp_scale (e : LpAffineExpression) (q : Q) : LpAffineExpression :=
  {| terms := (fun t => (t.1 * q, t.2)%Q) <$> terms e;
     constant := (constant e * q)%Q |}.
Definition lp_add (e1 e2 : LpAffineExpression) : LpAffineExpression :=
  {| terms := terms e1 ++ terms e2;
     constant := (constant e1 + constant e2)%Q |}.
Definition lp_neg (e : LpAffineExpression) : LpAffineExpression :=
  lp_scale e (-1)%Q.
Definition lp_sub (e1 e2 : LpAffineExpression) : LpAffineExpression :=
  lp_add e1 (lp_neg e2).

(** [lpSum(e for ...)] *)
Definition lpSum (es : list LpAffineExpression) : LpAffineExpression :=
  fold_right lp_add (lp_const 0%Q) es.

Inductive LpConstraintSense := LpConstraintLE | LpConstraintEQ | LpConstraintGE.

(** [lhs <= rhs], [lhs == rhs] or [lhs >= rhs], as written in the script. *)
Record LpConstraint := {
  lhs : LpAffineExpression;
  csense : LpConstraintSense;
  rhs : LpAffineExpression
}.

Inductive LpSense := LpMinimize | LpMaximize.

(** An [LpProblem]: [model += e, name] sets the objective when [e] is an
    expression and appends a named constraint when [e] is a constraint. *)
Record LpProblem := {
  prob_name : string;
  sense : LpSense;
  objective : LpAffineExpression;
  objective_name : string;
  constraints : list (string * LpConstraint)
}.

(** ** Meaning of a model *)

Definition Qsum (l : list Q) : Q := fold_right Qplus 0%Q l.

(** value of an expression under an assignment of the variables *)
Definition eval (a : LpVar -> Q) (e : LpAffineExpression) : Q :=
  (Qsum ((fun t => t.1 * a t.2) <$> terms e) + constant e)%Q.

Definition holds (a : LpVar -> Q) (c : LpConstraint) : Prop :=
  match csense c with
  | LpConstraintLE => (eval a (lhs c) <= eval a (rhs c))%Q
  | LpConstraintEQ => (eval a (lhs c) == eval a (rhs c))%Q
  | LpConstraintGE => (eval a (rhs c) <= eval a (lhs c))%Q
  end.

(** bounds and category of one variable *)
Definition in_domain (d : LpVariable) (q : Q) : Prop :=
  (match lowBound d with Some l => (l <= q)%Q | None => True end) /\
  (match upBound d with Some u => (q <= u)%Q | None => True end) /\
  (match cat d with
   | LpContinuous => True
   | LpBinary => (q == 0)%Q \/ (q == 1)%Q
   end).

Definition expr_vars (e : LpAffineExpression) : list LpVar := (terms e).*2.

(** [model.variables()]: the variables of the objective and constraints. *)
Definition variables (m : LpProblem) : list LpVar :=
  expr_vars (objective m)
  ++ mjoin ((fun nc => expr_vars (lhs nc.2) ++ expr_vars (rhs nc.2))
            <$> constraints m).

Definition feasible (m : LpProblem) (a : LpVar -> Q) : Prop :=
  (forall v, v ∈ variables m -> in_domain (declared v) (a v)) /\
  Forall (fun nc => holds a nc.2) (constraints m).

(** objective value, oriented so that larger is better *)
Definition merit (m : LpProblem) (a : LpVar -> Q) : Q :=
  match sense m with
  | LpMaximize => eval a (objective m)
  | LpMinimize => (- eval a (objective m))%Q
  end.

Definition optimal (m : LpProblem) (a : LpVar -> Q) : Prop :=
  feasible m a /\ forall a', feasible m a' -> (merit m a' <= merit m a)%Q.

Definition bounded (m : LpProblem) : Prop :=
  exists b : Q, forall a, feasible m a -> (merit m a <= b)%Q.

(** ** Library interfaces *)

(** [d.strftime('%Y-%m-%d')] of the date with ordinal [d]. *)
Class Calendar := { strftime : Z -> string }.

(** [model.solve()]: the status code and, for every variable, [varValue]. *)
Class Solver := { solve : LpProblem -> Z * (LpVar -> option Q) }.

(** PuLP's status code for an optimal solve ([LpStatusOptimal]). *)
Definition LpStatusOptimal : Z := 1.

(** What a run of a MILP solver on [m] guarantees about its answer:
    status 1 comes with the values of an optimal solution, and a feasible
    model with bounded objective is solved to status 1. *)
Definition solver_answer (m : LpProblem) (r : Z * (LpVar -> option Q)) : Prop :=
  (r.1 = LpStatusOptimal ->
     exists a, optimal m a /\ forall v, v ∈ variables m -> r.2 v = Some (a v)) /\
  ((exists a, feasible m a) -> bounded m -> r.1 = LpStatusOptimal).

(** ** The script *)

(** The widget values of one run (lines 24-46). [days_off_widget w] is the
    value of the number input labelled with worker [w]. *)
Record Inputs := {
  n_workers : Z;
  n_workers_per_day : Z;
  start_date : Z;
  end_date : Z;
  worker_names : string;
  days_off_widget : string -> Z
}.

Definition DataFrame := odict string (odict string string).

(** The calls of the script that a run performs, in order: the Streamlit
    calls that show something or stop the run, and the call of the solver.
    [st_markdown_csv_link df] is [st.markdown(to_csv_link(df), ...)]. *)
Inductive Call :=
  | st_warning (body : string)
  | st_stop
  | model_solve (model : LpProblem)
  | st_success (body : string)
  | st_write (df : DataFrame)
  | st_markdown_csv_link (df : DataFrame)
  | st_error (body : string).

Definition shift_types : list Z := [0; 1; 2; 3].

Definition shift_mapping : odict Z string :=
  [(0, "Off"); (1, "First Half"); (2, "Second Half"); (3, "Full Day")]%string.

(** [if var.varValue:] -- [None] and zero are false, all else is true. *)
Definition truthy (v : option Q) : bool :=
  match v with
  | Some q => negb (Qeq_bool q 0)
  | None => false
  end.

(** [data[worker][date_str] = label]. Python raises KeyError for a worker
    without a row; line 83 gives every worker a row, so the decoder never
    takes the second branch. *)
Definition set_cell (worker date label : string) (data : DataFrame) : DataFrame :=
  match od_get worker data with
  | Some row => od_set worker (od_set date label row) data
  | None => data
  end.

Section Script.
Context `{Calendar} `{Solver}.
Variable i : Inputs.

(** line 34 *)
Definition n_days : Z := end_date i - start_date i + 1.

(** line 38 *)
Definition workers : list string :=
  PyStr.strip <$> PyStr.split "," (worker_names i).

(** lines 44-46 *)
Definition days_off_dict : gmap string Z :=
  fold_left (fun d worker => <[worker := days_off_widget i worker]> d)
            workers ∅.

(** [(start_date + timedelta(days=day)).strftime('%Y-%m-%d')] *)
Definition date_str (day : Z) : string := strftime (start_date i + day).

(** keys of the dict [x], lines 55-63 *)
Definition x_keys : list (string * string * Z) :=
  worker ← workers; day ← range n_days; shift_type ← shift_types;
  [(worker, date_str day, shift_type)].

(** line 70 *)
Definition one_shift (date worker : string) : string * LpConstraint :=
  ("worker_" +:+ worker +:+ "_day_" +:+ date +:+ "_constraint",
   {| lhs := lpSum ((fun shift_type => lp_var (Xvar worker date shift_type))
                    <$> shift_types);
      csense := LpConstraintEQ;
      rhs := lp_const 1%Q |}).

(** lines 72 and 73; [half] is 1 for the first and 2 for the second half *)
Definition coverage (label : string) (half : Z) (date : string)
  : string * LpConstraint :=
  (label +:+ date,
   {| lhs := lpSum ((fun worker =>
                       lp_add (lp_scale (lp_var (Xvar worker date half)) (1 # 2)%Q)
                              (lp_var (Xvar worker date 3)))
                    <$> workers);
      csense := LpConstraintGE;
      rhs := lp_sub (lp_const (inject_Z (n_workers_per_day i)))
                    (lp_var penalty) |}).

(** line 76; [days_off_dict[worker]] finds every worker of lines 44-46 *)
Definition days_off (worker : string) : string * LpConstraint :=
  ("days_off_" +:+ worker,
   {| lhs := lpSum ((fun day => lp_var (Xvar worker (date_str day) 0))
                    <$> range n_days);
      csense := LpConstraintEQ;
      rhs := lp_const (inject_Z (days_off_dict !!! worker)) |}).

(** lines 48-76 *)
Definition model : LpProblem :=
  {| prob_name := "shift-scheduling";
     sense := LpMaximize;
     objective := lp_neg (lp_var penalty);
     objective_name := "Minimize_Penalty";
     constraints :=
       (day ← range n_days;
        (one_shift (date_str day) <$> workers)
        ++ [coverage "hard_full_and_first_" 1 (date_str day);
            coverage "hard_full_and_second_" 2 (date_str day)])
       ++ (days_off <$> workers) |}.

(** line 83 *)
Definition blank_table : DataFrame :=
  od_of_items ((fun worker =>
                  (worker,
                   od_of_items ((fun day => (date_str day, EmptyString))
                                <$> range n_days)))
               <$> workers).

(** lines 88-91; [shift_mapping[shift_type]] finds each of 0..3 *)
Definition decode_cell (varValue : LpVar -> option Q) (date worker : string)
    (data : DataFrame) : DataFrame :=
  fold_left (fun data shift_type =>
               if truthy (varValue (Xvar worker date shift_type))
               then set_cell worker date
                      (default EmptyString (od_get shift_type shift_mapping))
                      data
               else data)
            shift_types data.

(** lines 83-93 *)
Definition decode (varValue : LpVar -> option Q) : DataFrame :=
  fold_left (fun data day =>
               fold_left (fun data worker =>
                            decode_cell varValue (date_str day) worker data)
                         workers data)
            (range n_days) blank_table.

(** lines 30-98 *)
Definition app : list Call :=
  if end_date i <? start_date i then
    [st_warning "The end date should be after the start date."; st_stop]
  else if negb (Z.of_nat (length workers) =? n_workers i) then
    [st_warning "The number of worker names should match the number of workers.";
     st_stop]
  else
    let '(status, varValue) := solve model in
    model_solve model ::
    (if status =? 1 then
       let df := decode varValue in
       [st_success "Optimal solution found."; st_write df;
        st_markdown_csv_link df]
     else
       [st_error "No solution found."]).
End Script.

(** ** A calendar instance: ISO dates of the proleptic Gregorian calendar *)

Module IsoCalendar.

Definition digit (n : Z) : ascii := ascii_of_N (48 + Z.to_N (n mod 10)).

Definition digits2 (n : Z) : string :=
  String (digit (n / 10)) (String (digit n) EmptyString).

Definition digits4 (n : Z) : string :=
  String (digit (n / 1000)) (String (digit (n / 100)) (digits2 n)).

(** year, month and day of the date with ordinal [ord]
    (ordinal 1 is 0001-01-01) *)
Definition ymd (ord : Z) : Z * Z * Z :=
  let z := ord + 305 in
  let era := z / 146097 in
  let doe := z mod 146097 in
  let yoe := (doe - doe / 1460 + doe / 36524 - doe / 146096) / 365 in
  let doy := doe - (365 * yoe + yoe / 4 - yoe / 100) in
  let mp := (5 * doy + 2) / 153 in
  let d := doy - (153 * mp + 2) / 5 + 1 in
  let m := if mp <? 10 then mp + 3 else mp - 9 in
  let y := yoe + era * 400 + (if m <=? 2 then 1 else 0) in
  (y, m, d).

Definition format (ord : Z) : string :=
  let '(y, m, d) := ymd ord in
  digits4 y +:+ "-" +:+ digits2 m +:+ "-" +:+ digits2 d.

End IsoCalendar.

Definition iso_calendar : Calendar := {| strftime := IsoCalendar.format |}.

(** ** Reading a decoded table *)

(** [df.loc[worker, date]] *)
Definition cell_of (df : DataFrame) (worker date : string) : option string :=
  od_get worker df ≫= od_get date.

(** the shift kinds of a cell whose variable the decoder finds truthy *)
Definition selected (varValue : LpVar -> option Q) (worker date : string)
  : list Z :=
  filter (fun shift_type => truthy (varValue (Xvar worker date shift_type)))
         shift_types.

(** the label the last of them brings, and the blank of line 83 if none *)
Definition cell_label (varValue : LpVar -> option Q) (worker date : string)
  : string :=
  match last (selected varValue worker date) with
  | Some shift_type => default EmptyString (od_get shift_type shift_mapping)
  | None => EmptyString
  end.

(** one round of the loop of lines 88-91 *)
Definition decode_step (varValue : LpVar -> option Q) (w s : string)
    (data : DataFrame) (k : Z) : DataFrame :=
  if truthy (varValue (Xvar w s k))
  then set_cell w s (default EmptyString (od_get k shift_mapping)) data
  else data.

(** The table while the loops of lines 85-91 run: a cell of the range is
    blank or already final, and the cells in [done] are final. *)
Definition decode_inv `{Calendar} (i : Inputs) (varValue : LpVar -> option Q)
    (done : string -> string -> Prop) (data : DataFrame) : Prop :=
  (forall w s, w ∈ workers i -> s ∈ date_str i <$> range (n_days i) ->
     cell_of data w s = Some EmptyString
     \/ cell_of data w s = Some (cell_label varValue w s)) /\
  (forall w s, done w s -> cell_of data w s = Some (cell_label varValue w s)).

(** what the loops of lines 85-91 keep: the row labels of line 83, and no
    cell outside workers x dates *)
Definition decode_shape `{Calendar} (i : Inputs) (data : DataFrame) : Prop :=
  od_keys data = od_keys (blank_table i)
  /\ forall w s, is_Some (cell_of data w s) ->
       w ∈ workers i /\ s ∈ date_str i <$> range (n_days i).

(** membership in a list that is written out *)
Ltac elem_of_here :=
  repeat first [apply list_elem_of_here | apply list_elem_of_further].

Ltac elem_of_inv H :=
  repeat (apply elem_of_cons in H as [->|H]); try (by apply elem_of_nil in H).

(** ** Requests that pass the checks of lines 30 and 40 *)

Definition validated (i : Inputs) : Prop :=
  start_date i <= end_date i /\ Z.of_nat (length (workers i)) = n_workers i.

(** the same request with another 'Number of Workers Required per Day' *)
Definition with_required (i : Inputs) (n : Z) : Inputs :=
  {| n_workers := n_workers i;
     n_workers_per_day := n;
     start_date := start_date i;
     end_date := end_date i;
     worker_names := worker_names i;
     days_off_widget := days_off_widget i |}.

(** the same request with another text in the worker-names field *)
Definition with_worker_names (i : Inputs) (names : string) : Inputs :=
  {| n_workers := n_workers i;
     n_workers_per_day := n_workers_per_day i;
     start_date := start_date i;
     end_date := end_date i;
     worker_names := names;
     days_off_widget := days_off_widget i |}.

Definition is_model_solve (c : Call) : bool :=
  match c with model_solve _ => true | _ => false end.

Definition is_table_output (c : Call) : bool :=
  match c with st_write _ | st_markdown_csv_link _ => true | _ => false end.

(** a constraint checked by computation *)
Definition holdsb (a : LpVar -> Q) (c : LpConstraint) : bool :=
  match csense c with
  | LpConstraintLE => Qle_bool (eval a (lhs c)) (eval a (rhs c))
  | LpConstraintEQ => Qeq_bool (eval a (lhs c)) (eval a (rhs c))
  | LpConstraintGE => Qle_bool (eval a (rhs c)) (eval a (lhs c))
  end.

(** an assignment that is 1 on the listed variables, 0 on the other
    entries of [x], and [p] on [penalty] *)
Definition indicator (ones : list LpVar) (p : Q) (v : LpVar) : Q :=
  match v with
  | penalty => p
  | _ => if bool_decide (v ∈ ones) then 1%Q else 0%Q
  end.

(** The schedule that gives every worker the first days of the range off,
    as many as requested, and a full day on all others, and takes the whole
    staffing requirement as penalty. *)
Definition first_days_off `{Calendar} (i : Inputs) (v : LpVar) : Q :=
  match v with
  | penalty => inject_Z (Z.max 0 (n_workers_per_day i))
  | Xvar w d k =>
      let off := bool_decide (d ∈ take (Z.to_nat (days_off_widget i w))
                                       (date_str i <$> range (n_days i))) in
      if decide (k = 0) then (if off then 1%Q else 0%Q)
      else if decide (k = 3) then (if off then 0%Q else 1%Q)
      else 0%Q
  end.

(** ** The text of the worker-names field, by fields

    One comma-separated field is a name with whitespace around it. *)
Record Field := {
  pad_left : string;
  core : string;
  pad_right : string
}.

Definition field_text (f : Field) : string :=
  pad_left f +:+ core f +:+ pad_right f.

(** the paddings are whitespace and the name holds no comma *)
Definition well_formed_field (f : Field) : Prop :=
  PyStr.all_space (pad_left f) = true
  /\ PyStr.all_space (pad_right f) = true
  /\ PyStr.contains "," (core f) = false.

Definition names_text (fields : list Field) : string :=
  PyStr.join "," (field_text <$> fields).

(** ** The decoder in the words of the specification

    A kind is selected when its value is at least 0.5, and the first
    selected kind, in the order of [shift_types], gives the label. *)

Definition at_least_half (v : option Q) : bool :=
  match v with
  | Some q => Qle_bool (1 # 2) q
  | None => false
  end.

Definition spec_selected (varValue : LpVar -> option Q) (worker date : string)
  : list Z :=
  filter (fun shift_type =>
            at_least_half (varValue (Xvar worker date shift_type)))
         shift_types.

Definition spec_cell_label (varValue : LpVar -> option Q) (worker date : string)
  : string :=
  match head (spec_selected varValue worker date) with
  | Some shift_type => default EmptyString (od_get shift_type shift_mapping)
  | None => EmptyString
  end.

(** ** Concrete runs *)

Module Examples.

(** 2023-08-01 *)
Definition aug1 : Z := 738733.

(** one worker, one day, no day off *)
Definition solo : Inputs :=
  {| n_workers := 1; n_workers_per_day := 1;
     start_date := aug1; end_date := aug1;
     worker_names := "A";
     days_off_widget := fun _ => 0 |}.

(** values with two kinds selected in one cell *)
Definition tie_values (v : LpVar) : option Q :=
  match v with
  | Xvar _ _ 0 | Xvar _ _ 3 => Some 1%Q
  | _ => Some 0%Q
  end.

(** values with one kind at a quarter *)
Definition quarter_values (v : LpVar) : option Q :=
  match v with
  | Xvar _ _ 1 => Some (1 # 4)%Q
  | _ => Some 0%Q
  end.

(** two workers, two days, one day off each, one worker required *)
Definition pair : Inputs :=
  {| n_workers := 2; n_workers_per_day := 1;
     start_date := aug1; end_date := aug1 + 1;
     worker_names := " A , B";
     days_off_widget := fun _ => 1 |}.

(** A is off on the first day and B on the second *)
Definition pair_ones : list LpVar :=
  [Xvar "A" "2023-08-01" 0; Xvar "A" "2023-08-02" 3;
   Xvar "B" "2023-08-01" 3; Xvar "B" "2023-08-02" 0].

Definition pair_assignment : LpVar -> Q := indicator pair_ones 0.

(** the same schedule when two workers are required: one is missing *)
Definition pair_assignment_short : LpVar -> Q := indicator pair_ones 1.

Definition pair_solver : Solver :=
  {| solve := fun _ => (1, fun v => Some (pair_assignment v)) |}.

(** the end date before the start date *)
Definition backwards : Inputs :=
  {| n_workers := 2; n_workers_per_day := 1;
     start_date := aug1 + 1; end_date := aug1;
     worker_names := "A,B";
     days_off_widget := fun _ => 0 |}.

(** three names for two declared workers *)
Definition miscounted : Inputs :=
  {| n_workers := 2; n_workers_per_day := 1;
     start_date := aug1; end_date := aug1 + 1;
     worker_names := "A,B,C";
     days_off_widget := fun _ => 0 |}.

(** five workers, ten days, worker A asks for eleven days off *)
Definition overbooked : Inputs :=
  {| n_workers := 5; n_workers_per_day := 3;
     start_date := aug1; end_date := aug1 + 9;
     worker_names := "A,B,C,D,E";
     days_off_widget := fun w => if decide (w = "A"%string) then 11 else 5 |}.

(** the worker-names field of [pair], and the same names padded otherwise *)
Definition pair_fields : list Field :=
  [ {| pad_left := " "; core := "A"; pad_right := " " |};
    {| pad_left := " "; core := "B"; pad_right := "" |} ].

Definition pair_fields_plain : list Field :=
  [ {| pad_left := ""; core := "A"; pad_right := "" |};
    {| pad_left := ""; core := "B"; pad_right := "" |} ].

(** a solver run that reports infeasibility ([LpStatusInfeasible]) *)
Definition failing_solver : Solver :=
  {| solve := fun _ => (-1, fun _ => None) |}.

End Examples.
(** ** The page around the scheduler

    Lines 15-22 show the title and the introduction, lines 100-133 the
    contact form, lines 135-144 the privacy policy. The texts are the
    literals of the script; the full-width colon of lines 138-144 stands
    as its UTF-8 bytes. *)

(** the character [\n] *)
Definition newline : ascii := ascii_of_N 10.

(** the character that delimits the attributes of line 13 *)
Definition dquote : ascii := ascii_of_N 34.

(** line 15 *)
Definition title_text : string := "Shift Scheduling Optimizer".

(** lines 17-22, line by line *)
Definition intro_text : string :=
  PyStr.join newline
    [ "";
      "This website automatically generates an optimized shift schedule for your company, balancing workloads and preferences. ";
      "The optimized schedule is then available for download as a CSV file. Below are some important notes:";
      "- The optimization process aims to meet the 'Number of Workers Required per Day' as much as possible. ";
      "- However, it prioritizes fulfilling the 'Number of Days Off Desired by Each Worker'.";
      "" ]%string.

(** lines 137-144 *)
Definition privacy_texts : list string :=
  [ "We respect your privacy and handle your personal information with care. This policy outlines how we collect, use, and protect your data when you use our [Service/Website].";
    "Information We Collect：We may collect your name, email address, and other contact details. We also gather technical information such as log data and cookies.";
    "How We Use Your Information：We use the collected information for providing and improving our services, as well as for communication, customization, and promotional purposes.";
    "Sharing and Disclosure：We may share your information with trusted third parties for the purposes outlined in this policy, except when required by law or with your consent.";
    "Data Security：We take appropriate measures to protect your personal information from unauthorized access, disclosure, or misuse.";
    "Cookies：We may use cookies to analyze usage patterns and enhance your experience. You can adjust your browser settings to refuse cookies.";
    "Contact Us：For any questions regarding this Privacy Policy, please contact us at [Contact Information].";
    "Changes and Updates：We reserve the right to update this Privacy Policy as needed. We will notify you of significant changes through appropriate means." ]%string.

(** ** Counting and shape of Python strings *)

(** [s.count(c)] for a character *)
Fixpoint str_count (c : ascii) (s : string) : nat :=
  match s with
  | EmptyString => O
  | String d s' => (if Ascii.eqb d c then 1 else 0)%nat + str_count c s'
  end.

(** [s[:1].isspace()] and [s[-1:].isspace()] *)
Definition starts_space (s : string) : bool :=
  match s with
  | EmptyString => false
  | String c _ => PyStr.isspace c
  end.

Fixpoint ends_space (s : string) : bool :=
  match s with
  | EmptyString => false
  | String c EmptyString => PyStr.isspace c
  | String _ s' => ends_space s'
  end.

(** ** Staffing of a day *)

(** the left side of lines 72 ([half] = 1) and 73 ([half] = 2) under an
    assignment: half days count one half, full days one *)
Definition staffing `{Calendar} (i : Inputs) (a : LpVar -> Q) (half day : Z) : Q :=
  Qsum ((fun w => (1 # 2) * a (Xvar w (date_str i day) half)
                  + a (Xvar w (date_str i day) 3))%Q <$> workers i).

Definition Qmax2 (x y : Q) : Q := if Qle_bool x y then y else x.

(** how far the worse half of a day stays below the requirement *)
Definition shortfall `{Calendar} (i : Inputs) (a : LpVar -> Q) (day : Z) : Q :=
  Qmax2 (inject_Z (n_workers_per_day i) - staffing i a 1 day)
        (inject_Z (n_workers_per_day i) - staffing i a 2 day).

(** the largest shortfall of the range, and 0 when no day falls short *)
Definition worst_shortfall `{Calendar} (i : Inputs) (a : LpVar -> Q) : Q :=
  fold_right Qmax2 0%Q (shortfall i a <$> range (n_days i)).

(** the same schedule with another value of [penalty] *)
Definition with_penalty (a : LpVar -> Q) (p : Q) (v : LpVar) : Q :=
  match v with
  | penalty => p
  | _ => a v
  end.

(** the same schedule with every half day turned into a full day *)
Definition full_days (a : LpVar -> Q) (v : LpVar) : Q :=
  match v with
  | penalty => a penalty
  | Xvar w d k =>
      if decide (k = 1) then 0%Q
      else if decide (k = 2) then 0%Q
      else if decide (k = 3)
           then (a (Xvar w d 1) + a (Xvar w d 2) + a (Xvar w d 3))%Q
           else a v
  end.

(** the same staffing read off a decoded table: the workers whose cell of
    the day holds the half-day label count one half, those with 'Full Day'
    count one *)
Definition count_label (df : DataFrame) (ws : list string) (date label : string)
  : nat :=
  length (filter (fun w => cell_of df w date = Some label) ws).

Definition table_staffing (df : DataFrame) (ws : list string)
    (half_label date : string) : Q :=
  ((1 # 2) * inject_Z (Z.of_nat (count_label df ws date half_label))
   + inject_Z (Z.of_nat (count_label df ws date "Full Day")))%Q.

(** ** The decoded table, written out

    One row per worker in input order, one column per date in order, each
    cell the label of [cell_label]. *)
Definition table_of `{Calendar} (i : Inputs) (varValue : LpVar -> option Q)
  : DataFrame :=
  (fun w => (w, (fun day => (date_str i day,
                             cell_label varValue w (date_str i day)))
                <$> range (n_days i)))
  <$> workers i.

(** the rows of a table as (label, column labels) *)
Definition table_keys (df : DataFrame) : list (string * list string) :=
  (fun wr => (wr.1, od_keys wr.2)) <$> df.

(** every cell of workers x dates is there *)
Definition table_filled `{Calendar} (i : Inputs) (data : DataFrame) : Prop :=
  forall w s, w ∈ workers i -> s ∈ date_str i <$> range (n_days i) ->
    is_Some (cell_of data w s).

(** ** The decoder with Python's KeyError

    Lines 83-93 once more, with every subscript as Python runs it: [None]
    stands for the KeyError of [x[...]], [shift_mapping[...]] or
    [data[worker]] on a missing key. *)

Definition set_cell_strict (worker date label : string) (data : DataFrame)
  : option DataFrame :=
  row ← od_get worker data;
  Some (od_set worker (od_set date label row) data).

Section StrictDecoder.
Context `{Calendar}.
Variable i : Inputs.
Variable varValue : LpVar -> option Q.

(** lines 88-91 for one shift type *)
Definition decode_step_strict (worker date : string)
    (acc : option DataFrame) (shift_type : Z) : option DataFrame :=
  data ← acc;
  if bool_decide ((worker, date, shift_type) ∈ x_keys i) then
    if truthy (varValue (Xvar worker date shift_type)) then
      label ← od_get shift_type shift_mapping;
      set_cell_strict worker date label data
    else Some data
  else None.

(** lines 85-91 *)
Definition decode_strict : option DataFrame :=
  fold_left (fun acc day =>
               fold_left (fun acc worker =>
                            fold_left (decode_step_strict worker (date_str i day))
                                      shift_types acc)
                         (workers i) acc)
            (range (n_days i)) (Some (blank_table i)).
End StrictDecoder.

(** ** Messages of a run *)

Definition is_message (c : Call) : bool :=
  match c with
  | st_warning _ | st_success _ | st_error _ => true
  | _ => false
  end.

Definition is_stop (c : Call) : bool :=
  match c with st_stop => true | _ => false end.

(** ** The download link, lines 10-13

    [DataFrame.to_csv] and the base64 encoding of the encoded text are
    library code: [b64encode s] is
    [base64.b64encode(s.encode()).decode()]. *)
Class Export := {
  to_csv : DataFrame -> string;
  b64encode : string -> string
}.

Definition link_prefix : string :=
  "<a href=" +:+ String dquote "data:file/csv;base64,".

Definition link_suffix : string :=
  String dquote (" download=" +:+ String dquote ("schedule.csv"
    +:+ String dquote ">Download as CSV</a>")).

Definition to_csv_link `{Export} (df : DataFrame) : string :=
  let csv := to_csv df in
  let b64 := b64encode csv in
  link_prefix +:+ b64 +:+ link_suffix.

(** [link[30:-45]] (for a link of at least 75 characters): the text
    between the literal parts of line 13 *)
Definition payload_of_link (link : string) : string :=
  substring 30 (String.length link - 30 - 45) link.

(** ** The contact form, lines 100-133 *)

(** the values of the three text widgets and of the button *)
Record ContactInputs := {
  contact_name : string;
  contact_email : string;
  contact_message : string;
  submit : bool
}.

(** the [MIMEMultipart] message of lines 118-122 *)
Record Message := {
  msg_from : string;
  msg_to : string;
  msg_subject : string;
  msg_text : string
}.

(** the calls of lines 125-129 on the SMTP library *)
Inductive SmtpCall :=
  | SMTP (host : string) (port : Z)
  | starttls
  | login (user password : string)
  | sendmail (from_addr to_addrs : string) (msg : Message)
  | quit.

(** The mail library and the network behind it: [raises c] is the text of
    the exception that call [c] raises, if it raises one. *)
Class Smtp := { raises : SmtpCall -> option string }.

(** What a run of the whole script does, in order. [of_call c] is one of
    the calls of [Call]; [smtp c] is a call on the mail library. *)
Inductive PageCall :=
  | st_title (body : string)
  | st_text (body : string)
  | st_header (body : string)
  | of_call (c : Call)
  | smtp (c : SmtpCall).

Definition is_smtp (c : PageCall) : bool :=
  match c with smtp _ => true | _ => false end.

Definition is_outcome (c : PageCall) : bool :=
  match c with
  | of_call (st_success _) | of_call (st_error _) => true
  | _ => false
  end.

Definition is_header (c : PageCall) : bool :=
  match c with st_header _ => true | _ => false end.

(** line 117 *)
Definition message_text (f : ContactInputs) : string :=
  "Name: " +:+ contact_name f +:+ String newline ("Email: " +:+ contact_email f
    +:+ String newline ("Message: " +:+ contact_message f)).

(** lines 108-122 *)
Definition contact_msg (f : ContactInputs) : Message :=
  {| msg_from := "your_email@gmail.com";
     msg_to := "****";
     msg_subject := "Contact Us Form Submission";
     msg_text := message_text f |}.

(** the body of the [try] of lines 124-130, in order *)
Definition smtp_calls (f : ContactInputs) : list SmtpCall :=
  [ SMTP "smtp.gmail.com" 587;
    starttls;
    login "your_email@gmail.com" "your_password";
    sendmail "your_email@gmail.com" "****" (contact_msg f);
    quit ].

Section Page.
Context `{Calendar} `{Solver} `{Smtp}.

(** lines 124-133: the calls run in order; the first exception ends the
    [try] body and is reported by [st.error], and [st.success] follows
    the last call when none raised. *)
Fixpoint try_calls (calls : list SmtpCall) : list PageCall :=
  match calls with
  | [] => [of_call (st_success "Message sent successfully!")]
  | c :: rest =>
      smtp c ::
      match raises c with
      | Some e => [of_call (st_error ("An error occurred: " +:+ e))]
      | None => try_calls rest
      end
  end.

(** lines 100-133 *)
Definition contact (f : ContactInputs) : list PageCall :=
  [st_header "Contact Us";
   st_text "If you have any questions or feedback, please feel free to contact us using the form below:"]
  ++ (if submit f then try_calls (smtp_calls f) else []).

(** lines 135-144 *)
Definition privacy : list PageCall :=
  st_header "Privacy Policy" :: (st_text <$> privacy_texts).

(** [st.stop()] ends the run: nothing after it is executed *)
Definition stopped (calls : list Call) : bool := existsb is_stop calls.

(** the whole script, lines 15-144 *)
Definition page (i : Inputs) (f : ContactInputs) : list PageCall :=
  [st_title title_text; st_text intro_text]
  ++ (of_call <$> app i)
  ++ (if stopped (app i) then [] else contact f ++ privacy).
End Page.

(** ** More concrete runs *)

Module MoreExamples.

(** an export that keeps the row labels only, for a run of [to_csv_link] *)
Definition labels_export : Export :=
  {| to_csv := fun df => PyStr.join newline (od_keys df);
     b64encode := fun s => s |}.

Definition question : ContactInputs :=
  {| contact_name := "Ann";
     contact_email := "ann@example.org";
     contact_message := "Hello";
     submit := true |}.

(** the same form before 'Submit' is pressed *)
Definition question_draft : ContactInputs :=
  {| contact_name := "Ann";
     contact_email := "ann@example.org";
     contact_message := "Hello";
     submit := false |}.

(** a mail server that refuses the login *)
Definition refusing_smtp : Smtp :=
  {| raises := fun c =>
       match c with
       | login _ _ => Some "(535, b'5.7.8 Username and Password not accepted.')"%string
       | _ => None
       end |}.

(** a mail server that accepts every call *)
Definition accepting_smtp : Smtp := {| raises := fun _ => None |}.

End MoreExamples.

(** * Properties *)

(** ** Ordered dicts *)

Section OrderedDictFacts.
Context {K V : Type} `{EqDecision K}.
Implicit Types (d : odict K V) (k : K) (v : V).

Lemma od_get_set_eq k v d : od_get k (od_set k v d) = Some v.
Proof.
  induction d as [|[k' v'] d IH]; simpl.
  - by rewrite decide_True.
  - destruct (decide (k' = k)) as [->|Hne]; simpl.
    + by rewrite decide_True.
    + by rewrite decide_False.
Qed.

Lemma od_get_set_ne k k' v d : k ≠ k' -> od_get k' (od_set k v d) = od_get k' d.
Proof.
  intros Hne. induction d as [|[k0 v0] d IH]; simpl.
  - by rewrite decide_False.
  - destruct (decide (k0 = k)) as [->|Hne0]; simpl.
    + by rewrite !decide_False.
    + destruct (decide (k0 = k')); auto.
Qed.

Lemma od_get_set k k' v d :
  od_get k' (od_set k v d) = if decide (k = k') then Some v else od_get k' d.
Proof.
  destruct (decide (k = k')) as [->|Hne].
  - apply od_get_set_eq.
  - by apply od_get_set_ne.
Qed.

Lemma od_keys_set_present k v d :
  is_Some (od_get k d) -> od_keys (od_set k v d) = od_keys d.
Proof.
  unfold od_keys. induction d as [|[k0 v0] d IH]; simpl.
  - by intros [? ?].
  - destruct (decide (k0 = k)) as [->|Hne]; simpl; [done|].
    intros Hs. f_equal. by apply IH.
Qed.

(** a comprehension whose values are all [c] *)
Lemma od_get_fold_const {A} (g : A -> K) (c : V) (l : list A) d k :
  od_get k (fold_left (fun d kv => od_set kv.1 kv.2 d)
                      ((fun a => (g a, c)) <$> l) d)
  = if decide (k ∈ g <$> l) then Some c else od_get k d.
Proof.
  revert d. induction l as [|a l IH]; intros d.
  - rewrite decide_False; [done|]. apply not_elem_of_nil.
  - rewrite !fmap_cons. cbn [fold_left fst snd]. rewrite IH. destruct (decide (k ∈ g <$> l)) as [Hin|Hnin].
    + rewrite decide_True; [done|]. by apply list_elem_of_further.
    + rewrite od_get_set. destruct (decide (g a = k)) as [<-|Hne].
      * rewrite decide_True; [done|]. apply list_elem_of_here.
      * rewrite decide_False; [done|].
        intros Hin. apply elem_of_cons in Hin as [->|Hin]; auto.
Qed.

Lemma od_get_of_items_const {A} (g : A -> K) (c : V) (l : list A) k :
  od_get k (od_of_items ((fun a => (g a, c)) <$> l))
  = if decide (k ∈ g <$> l) then Some c else None.
Proof. unfold od_of_items. by rewrite od_get_fold_const. Qed.
End OrderedDictFacts.

(** ** The decoder *)

Lemma cell_of_set_cell_same df w s l c :
  cell_of df w s = Some c -> cell_of (set_cell w s l df) w s = Some l.
Proof.
  unfold cell_of, set_cell. destruct (od_get w df) as [row|] eqn:Hw; [|done].
  intros _. rewrite od_get_set_eq. simpl. apply od_get_set_eq.
Qed.

Lemma cell_of_set_cell_other df w s l w' s' :
  (w, s) ≠ (w', s') -> cell_of (set_cell w s l df) w' s' = cell_of df w' s'.
Proof.
  intros Hne. unfold cell_of, set_cell.
  destruct (od_get w df) as [row|] eqn:Hw; [|done].
  rewrite od_get_set. destruct (decide (w = w')) as [<-|Hw']; [|done].
  rewrite Hw. simpl. apply od_get_set_ne. congruence.
Qed.

Section Decoder.
Context `{Calendar}.
Variable i : Inputs.
Variable varValue : LpVar -> option Q.

Lemma fold_cell_same w s ks : forall data c,
  cell_of data w s = Some c ->
  cell_of (fold_left (decode_step varValue w s) ks data) w s
  = Some (match last (filter (fun k => truthy (varValue (Xvar w s k))) ks) with
          | Some k => default EmptyString (od_get k shift_mapping)
          | None => c
          end).
Proof.
  induction ks as [|k ks IH]; intros data c Hc; [done|].
  cbn [fold_left]. unfold decode_step at 2.
  destruct (truthy (varValue (Xvar w s k))) eqn:Ht.
  - rewrite filter_cons_True; [|by apply Is_true_true].
    erewrite IH; [|by eapply cell_of_set_cell_same].
    rewrite last_cons. by destruct (last _).
  - rewrite filter_cons_False; [|by apply Is_true_false]. by apply IH.
Qed.

Lemma fold_cell_other w s w' s' ks : forall data,
  (w, s) ≠ (w', s') ->
  cell_of (fold_left (decode_step varValue w s) ks data) w' s' = cell_of data w' s'.
Proof.
  induction ks as [|k ks IH]; intros data Hne; [done|].
  cbn [fold_left]. rewrite IH; [|done]. unfold decode_step.
  destruct (truthy _); [|done]. by apply cell_of_set_cell_other.
Qed.

Lemma decode_cell_same w s data c :
  cell_of data w s = Some c ->
  c = EmptyString \/ c = cell_label varValue w s ->
  cell_of (decode_cell varValue s w data) w s = Some (cell_label varValue w s).
Proof.
  intros Hc Hor. unfold decode_cell.
  pose proof (fold_cell_same w s shift_types data c Hc) as Hf.
  unfold decode_step in Hf. rewrite Hf.
  unfold cell_label, selected in *.
  destruct (last _); [done|]. by destruct Hor as [->| ->].
Qed.

Lemma inv_decode_cell done w s data :
  w ∈ workers i -> s ∈ date_str i <$> range (n_days i) ->
  decode_inv i varValue done data ->
  decode_inv i varValue (fun w' s' => done w' s' \/ (w' = w /\ s' = s))
      (decode_cell varValue s w data).
Proof.
  intros Hw Hs [Hcells Hdone].
  assert (Hhere : cell_of (decode_cell varValue s w data) w s
                  = Some (cell_label varValue w s)).
  { destruct (Hcells w s Hw Hs) as [Hc|Hc];
      eapply decode_cell_same; eauto. }
  assert (Hoth : forall w' s', (w, s) ≠ (w', s') ->
            cell_of (decode_cell varValue s w data) w' s' = cell_of data w' s').
  { intros w' s' Hne. by apply fold_cell_other. }
  split.
  - intros w' s' Hw' Hs'. destruct (decide ((w, s) = (w', s'))) as [[= <- <-]|Hne].
    + by right.
    + rewrite Hoth; auto.
  - intros w' s' [Hd|[-> ->]]; [|done].
    destruct (decide ((w, s) = (w', s'))) as [[= <- <-]|Hne]; [done|].
    rewrite Hoth; auto.
Qed.

Lemma inv_workers_loop s ws : forall done data,
  ws ⊆ workers i -> s ∈ date_str i <$> range (n_days i) ->
  decode_inv i varValue done data ->
  decode_inv i varValue (fun w' s' => done w' s' \/ (w' ∈ ws /\ s' = s))
      (fold_left (fun data worker => decode_cell varValue s worker data) ws data).
Proof.
  induction ws as [|w ws IH]; intros done data Hsub Hs Hinv.
  - destruct Hinv as [Hc Hd]. split; [done|].
    intros w' s' [Hd'|[Hin _]]; [auto|]. by apply elem_of_nil in Hin.
  - cbn [fold_left].
    assert (Hw : w ∈ workers i) by (apply Hsub; apply list_elem_of_here).
    assert (Hsub' : ws ⊆ workers i).
    { intros w' Hw'. apply Hsub. by apply list_elem_of_further. }
    destruct (IH _ _ Hsub' Hs (inv_decode_cell done w s data Hw Hs Hinv))
      as [Hc Hd].
    split; [done|]. intros w' s' [Hd'|[Hin ->]].
    + apply Hd. auto.
    + apply Hd. apply elem_of_cons in Hin as [->|Hin]; auto.
Qed.

Lemma inv_days_loop days : forall done data,
  days ⊆ range (n_days i) ->
  decode_inv i varValue done data ->
  decode_inv i varValue (fun w' s' => done w' s' \/ (w' ∈ workers i /\ s' ∈ date_str i <$> days))
      (fold_left (fun data day =>
                    fold_left (fun data worker =>
                                 decode_cell varValue (date_str i day) worker data)
                              (workers i) data)
                 days data).
Proof.
  induction days as [|day days IH]; intros done data Hsub Hinv.
  - destruct Hinv as [Hc Hd]. split; [done|].
    intros w' s' [Hd'|[_ Hin]]; [auto|]. by apply elem_of_nil in Hin.
  - cbn [fold_left].
    assert (Hday : date_str i day ∈ date_str i <$> range (n_days i)).
    { apply list_elem_of_fmap_2. apply Hsub. apply list_elem_of_here. }
    assert (Hsub' : days ⊆ range (n_days i)).
    { intros d Hd. apply Hsub. by apply list_elem_of_further. }
    destruct (IH _ _ Hsub'
                (inv_workers_loop (date_str i day) (workers i) done data
                   (reflexivity _) Hday Hinv)) as [Hc Hd].
    split; [done|]. intros w' s' [Hd'|[Hw Hin]].
    + apply Hd. auto.
    + apply Hd. rewrite fmap_cons in Hin.
      apply elem_of_cons in Hin as [->|Hin]; auto.
Qed.

Lemma blank_table_cell w s :
  w ∈ workers i -> s ∈ date_str i <$> range (n_days i) ->
  cell_of (blank_table i) w s = Some EmptyString.
Proof.
  intros Hw Hs. unfold cell_of, blank_table.
  rewrite (od_get_of_items_const (fun worker : string => worker)).
  rewrite list_fmap_id, decide_True by done. simpl.
  rewrite (od_get_of_items_const (date_str i)). by rewrite decide_True.
Qed.

(** Every cell of the decoded table holds the label of the last shift
    kind whose variable is truthy, or the blank when none is. *)
Lemma decode_cell_of w day :
  w ∈ workers i -> day ∈ range (n_days i) ->
  cell_of (decode i varValue) w (date_str i day)
  = Some (cell_label varValue w (date_str i day)).
Proof.
  intros Hw Hday.
  assert (Hinv : decode_inv i varValue (fun _ _ => False) (blank_table i)).
  { split; [|done]. intros w' s' Hw' Hs'. left. by apply blank_table_cell. }
  destruct (inv_days_loop (range (n_days i)) _ _ (reflexivity _) Hinv) as [_ Hd].
  apply Hd. right. split; [done|]. by apply list_elem_of_fmap_2.
Qed.
End Decoder.

(** ** Rows and columns of the decoded table *)

Lemma od_keys_set_cell df w s l : od_keys (set_cell w s l df) = od_keys df.
Proof.
  unfold set_cell. destruct (od_get w df) as [row|] eqn:Hw; [|done].
  apply od_keys_set_present. by rewrite Hw.
Qed.

Lemma cell_of_set_cell_dom df w s l w' s' :
  is_Some (cell_of (set_cell w s l df) w' s') ->
  (w' = w /\ s' = s) \/ is_Some (cell_of df w' s').
Proof.
  destruct (decide ((w, s) = (w', s'))) as [[= <- <-]|Hne]; [by left|].
  rewrite cell_of_set_cell_other by done. by right.
Qed.

Section DecoderShape.
Context `{Calendar}.
Variable i : Inputs.
Variable varValue : LpVar -> option Q.

Lemma blank_table_dom w s :
  is_Some (cell_of (blank_table i) w s) ->
  w ∈ workers i /\ s ∈ date_str i <$> range (n_days i).
Proof.
  unfold cell_of, blank_table.
  rewrite (od_get_of_items_const (fun worker : string => worker)).
  rewrite list_fmap_id. destruct (decide (w ∈ workers i)) as [Hw|Hw].
  - simpl. rewrite (od_get_of_items_const (date_str i)).
    destruct (decide (s ∈ date_str i <$> range (n_days i))); [done|].
    by intros [? ?].
  - by intros [? ?].
Qed.

Lemma shape_decode_step w s data k :
  w ∈ workers i -> s ∈ date_str i <$> range (n_days i) ->
  decode_shape i data -> decode_shape i (decode_step varValue w s data k).
Proof.
  intros Hw Hs [Hkeys Hdom]. unfold decode_step.
  destruct (truthy _); [|done]. split.
  - by rewrite od_keys_set_cell.
  - intros w' s' Hsome.
    apply cell_of_set_cell_dom in Hsome as [[-> ->]|Hsome]; auto.
Qed.

Lemma shape_decode_cell w s data :
  w ∈ workers i -> s ∈ date_str i <$> range (n_days i) ->
  decode_shape i data -> decode_shape i (decode_cell varValue s w data).
Proof.
  intros Hw Hs. unfold decode_cell. generalize shift_types.
  intros ks. revert data. induction ks as [|k ks IH]; intros data Hshape; [done|].
  cbn [fold_left]. apply IH. by apply (shape_decode_step w s data k).
Qed.

Lemma shape_workers_loop s ws : forall data,
  ws ⊆ workers i -> s ∈ date_str i <$> range (n_days i) ->
  decode_shape i data ->
  decode_shape i (fold_left (fun data worker => decode_cell varValue s worker data)
                   ws data).
Proof.
  induction ws as [|w ws IH]; intros data Hsub Hs Hshape; [done|].
  cbn [fold_left]. apply IH; [|done|].
  - intros w' Hw'. apply Hsub. by apply list_elem_of_further.
  - apply shape_decode_cell; [|done|done]. apply Hsub, list_elem_of_here.
Qed.

Lemma shape_days_loop days : forall data,
  days ⊆ range (n_days i) ->
  decode_shape i data ->
  decode_shape i (fold_left (fun data day =>
                      fold_left (fun data worker =>
                                   decode_cell varValue (date_str i day) worker data)
                                (workers i) data)
                   days data).
Proof.
  induction days as [|day days IH]; intros data Hsub Hshape; [done|].
  cbn [fold_left]. apply IH.
  - intros d Hd. apply Hsub. by apply list_elem_of_further.
  - apply shape_workers_loop; [done| |done].
    apply list_elem_of_fmap_2. apply Hsub, list_elem_of_here.
Qed.

Lemma shape_decode : decode_shape i (decode i varValue).
Proof.
  apply shape_days_loop; [done|]. split; [done|]. apply blank_table_dom.
Qed.

(** decoding keeps the row labels of line 83, in their order *)
Lemma decode_row_labels :
  od_keys (decode i varValue) = od_keys (blank_table i).
Proof. apply shape_decode. Qed.

(** the decoded table has no cell outside workers x dates *)
Lemma decode_cell_dom w s :
  is_Some (cell_of (decode i varValue) w s) ->
  w ∈ workers i /\ exists day, day ∈ range (n_days i) /\ s = date_str i day.
Proof.
  intros Hsome. destruct (proj2 shape_decode w s Hsome) as [Hw Hs].
  split; [done|]. apply list_elem_of_fmap in Hs as (day & -> & Hday). eauto.
Qed.
End DecoderShape.

(** ** Row labels when the names are distinct *)

Lemma od_keys_set_absent {K V} `{EqDecision K} (k : K) (v : V) (d : odict K V) :
  k ∉ od_keys d -> od_keys (od_set k v d) = od_keys d ++ [k].
Proof.
  unfold od_keys. induction d as [|[k0 v0] d IH]; intros Hk; [done|].
  cbn [od_set]. rewrite fmap_cons in Hk. cbn [fst] in Hk.
  apply not_elem_of_cons in Hk as [Hne Hk].
  rewrite decide_False by done. rewrite !fmap_cons, IH by done. done.
Qed.

Lemma od_keys_of_items_distinct {K V A} `{EqDecision K}
    (g : A -> K) (c : V) (l : list A) :
  NoDup (g <$> l) ->
  od_keys (od_of_items ((fun a => (g a, c)) <$> l)) = g <$> l.
Proof.
  unfold od_of_items.
  assert (Hgen : forall (d : odict K V),
            NoDup (od_keys d ++ (g <$> l)) ->
            od_keys (fold_left (fun d kv => od_set kv.1 kv.2 d)
                               ((fun a => (g a, c)) <$> l) d)
            = od_keys d ++ (g <$> l)).
  { induction l as [|a l IH]; intros d Hnd.
    - by rewrite app_nil_r.
    - rewrite !fmap_cons in *. cbn [fold_left fst snd].
      assert (Ha : g a ∉ od_keys d).
      { apply NoDup_app in Hnd as (_ & Hdisj & _).
        intros Hin. apply (Hdisj _ Hin), list_elem_of_here. }
      rewrite IH; rewrite od_keys_set_absent by done.
      + by rewrite <- app_assoc.
      + by rewrite <- app_assoc. }
  intros Hnd. by apply (Hgen []).
Qed.

Lemma decode_row_labels_distinct `{Calendar} (i : Inputs)
    (varValue : LpVar -> option Q) :
  NoDup (workers i) -> od_keys (decode i varValue) = workers i.
Proof.
  intros Hnd. rewrite decode_row_labels. unfold blank_table.
  rewrite (od_keys_of_items_distinct (fun worker : string => worker));
    by rewrite list_fmap_id.
Qed.

(** ** Values of expressions *)

Lemma Qsum_cons q l : Qsum (q :: l) = (q + Qsum l)%Q.
Proof. reflexivity. Qed.

Lemma Qsum_app l1 l2 : (Qsum (l1 ++ l2) == Qsum l1 + Qsum l2)%Q.
Proof. induction l1 as [|q l1 IH]; simpl; [|rewrite IH]; lra. Qed.

Lemma Qsum_fmap_ext {A} (f g : A -> Q) (l : list A) :
  (forall x, x ∈ l -> (f x == g x)%Q) -> (Qsum (f <$> l) == Qsum (g <$> l))%Q.
Proof.
  induction l as [|x l IH]; intros Hfg; [reflexivity|].
  rewrite !fmap_cons, !Qsum_cons.
  assert (f x == g x)%Q by (apply Hfg, list_elem_of_here).
  assert (Qsum (f <$> l) == Qsum (g <$> l))%Q.
  { apply IH. intros y Hy. apply Hfg. by apply list_elem_of_further. }
  lra.
Qed.

Lemma Qsum_fmap_le {A} (f g : A -> Q) (l : list A) :
  (forall x, x ∈ l -> (f x <= g x)%Q) -> (Qsum (f <$> l) <= Qsum (g <$> l))%Q.
Proof.
  induction l as [|x l IH]; intros Hfg; [apply Qle_refl|].
  rewrite !fmap_cons, !Qsum_cons.
  assert (f x <= g x)%Q by (apply Hfg, list_elem_of_here).
  assert (Qsum (f <$> l) <= Qsum (g <$> l))%Q.
  { apply IH. intros y Hy. apply Hfg. by apply list_elem_of_further. }
  lra.
Qed.

Section Eval.
Variable a : LpVar -> Q.

Lemma eval_lp_const q : (eval a (lp_const q) == q)%Q.
Proof. unfold eval; simpl. lra. Qed.

Lemma eval_lp_var v : (eval a (lp_var v) == a v)%Q.
Proof. unfold eval; simpl. lra. Qed.

Lemma eval_lp_add e1 e2 : (eval a (lp_add e1 e2) == eval a e1 + eval a e2)%Q.
Proof. unfold eval; simpl. rewrite fmap_app, Qsum_app. lra. Qed.

Lemma eval_lp_scale e q : (eval a (lp_scale e q) == eval a e * q)%Q.
Proof.
  unfold eval; simpl. destruct e as [ts c]; simpl.
  assert (Hts : (Qsum ((fun t => t.1 * a t.2) <$> ((fun t => (t.1 * q, t.2)) <$> ts))
                 == Qsum ((fun t => t.1 * a t.2) <$> ts) * q)%Q).
  { induction ts as [|[r v] ts IH]; [reflexivity|].
    rewrite !fmap_cons, !Qsum_cons, IH. simpl. ring. }
  rewrite Hts. ring.
Qed.

Lemma eval_lp_neg e : (eval a (lp_neg e) == - eval a e)%Q.
Proof. unfold lp_neg. rewrite eval_lp_scale. lra. Qed.

Lemma eval_lp_sub e1 e2 : (eval a (lp_sub e1 e2) == eval a e1 - eval a e2)%Q.
Proof. unfold lp_sub. rewrite eval_lp_add, eval_lp_neg. lra. Qed.

Lemma eval_lpSum es : (eval a (lpSum es) == Qsum (eval a <$> es))%Q.
Proof.
  induction es as [|e es IH].
  - apply eval_lp_const.
  - rewrite fmap_cons, Qsum_cons, <- IH. apply eval_lp_add.
Qed.

Lemma eval_lpSum_fmap {A} (f : A -> LpAffineExpression) (l : list A) :
  (eval a (lpSum (f <$> l)) == Qsum ((fun x => eval a (f x)) <$> l))%Q.
Proof. rewrite eval_lpSum, <- list_fmap_compose. reflexivity. Qed.
End Eval.

(** ** The constraints of the model *)

Lemma range_spec n k : k ∈ range n <-> 0 <= k < n.
Proof.
  unfold range. rewrite list_elem_of_fmap. split.
  - intros (j & -> & Hj). apply elem_of_seq in Hj. lia.
  - intros Hk. exists (Z.to_nat k). split; [lia|]. apply elem_of_seq. lia.
Qed.

Lemma length_range n : length (range n) = Z.to_nat n.
Proof. unfold range. by rewrite length_fmap, length_seq. Qed.

Section ModelFacts.
Context `{Calendar}.
Variable i : Inputs.

Lemma one_shift_in_model w day :
  w ∈ workers i -> day ∈ range (n_days i) ->
  one_shift (date_str i day) w ∈ constraints (model i).
Proof.
  intros Hw Hday. cbn [model constraints]. apply elem_of_app; left.
  apply list_elem_of_bind. exists day. split; [|done].
  apply elem_of_app; left. by apply list_elem_of_fmap_2.
Qed.

Lemma coverage_in_model day :
  day ∈ range (n_days i) ->
  coverage i "hard_full_and_first_" 1 (date_str i day) ∈ constraints (model i)
  /\ coverage i "hard_full_and_second_" 2 (date_str i day) ∈ constraints (model i).
Proof.
  intros Hday. cbn [model constraints].
  split; apply elem_of_app; left; apply list_elem_of_bind; exists day;
    (split; [|done]); apply elem_of_app; right.
  - apply list_elem_of_here.
  - apply list_elem_of_further, list_elem_of_here.
Qed.

Lemma days_off_in_model w :
  w ∈ workers i -> days_off i w ∈ constraints (model i).
Proof.
  intros Hw. cbn [model constraints]. apply elem_of_app; right.
  by apply list_elem_of_fmap_2.
Qed.

(** nothing else is in the model *)
Lemma constraints_model_inv nc :
  nc ∈ constraints (model i) ->
  (exists w day, w ∈ workers i /\ day ∈ range (n_days i)
                 /\ nc = one_shift (date_str i day) w)
  \/ (exists day, day ∈ range (n_days i)
                  /\ (nc = coverage i "hard_full_and_first_" 1 (date_str i day)
                      \/ nc = coverage i "hard_full_and_second_" 2 (date_str i day)))
  \/ (exists w, w ∈ workers i /\ nc = days_off i w).
Proof.
  cbn [model constraints]. intros Hin.
  apply elem_of_app in Hin as [Hin|Hin].
  - apply list_elem_of_bind in Hin as (day & Hin & Hday).
    apply elem_of_app in Hin as [Hin|Hin].
    + apply list_elem_of_fmap in Hin as (w & -> & Hw). left. eauto.
    + right; left. exists day. split; [done|].
      apply elem_of_cons in Hin as [->|Hin]; [by left|].
      apply list_elem_of_singleton in Hin as ->. by right.
  - apply list_elem_of_fmap in Hin as (w & -> & Hw). right; right. eauto.
Qed.

Lemma variables_of_constraint nc v :
  nc ∈ constraints (model i) ->
  v ∈ expr_vars (lhs nc.2) ++ expr_vars (rhs nc.2) ->
  v ∈ variables (model i).
Proof.
  intros Hnc Hv. unfold variables. apply elem_of_app; right.
  apply list_elem_of_join. eexists. split; [exact Hv|].
  by apply (list_elem_of_fmap_2
              (fun nc => expr_vars (lhs nc.2) ++ expr_vars (rhs nc.2))).
Qed.

Lemma penalty_in_variables : penalty ∈ variables (model i).
Proof. unfold variables. apply elem_of_app; left. apply list_elem_of_here. Qed.

Lemma xvar_in_variables w day k :
  w ∈ workers i -> day ∈ range (n_days i) -> k ∈ shift_types ->
  Xvar w (date_str i day) k ∈ variables (model i).
Proof.
  intros Hw Hday Hk.
  apply (variables_of_constraint _ _ (one_shift_in_model w day Hw Hday)).
  apply elem_of_app; left. cbn.
  unfold shift_types in Hk. elem_of_inv Hk; elem_of_here.
Qed.

(** *** What a feasible assignment satisfies *)

Variable a : LpVar -> Q.
Hypothesis Hfeas : feasible (model i) a.

Lemma feasible_holds nc : nc ∈ constraints (model i) -> holds a nc.2.
Proof.
  intros Hnc. destruct Hfeas as [_ Hall].
  rewrite Forall_forall in Hall. by apply Hall.
Qed.

Lemma feasible_penalty : (0 <= a penalty)%Q.
Proof.
  destruct Hfeas as [Hdom _]. by destruct (Hdom penalty penalty_in_variables).
Qed.

Lemma feasible_binary w day k :
  w ∈ workers i -> day ∈ range (n_days i) -> k ∈ shift_types ->
  (a (Xvar w (date_str i day) k) == 0)%Q \/ (a (Xvar w (date_str i day) k) == 1)%Q.
Proof.
  intros Hw Hday Hk. destruct Hfeas as [Hdom _].
  by destruct (Hdom _ (xvar_in_variables w day k Hw Hday Hk)) as (_ & _ & Hb).
Qed.

Lemma feasible_one_shift w day :
  w ∈ workers i -> day ∈ range (n_days i) ->
  (a (Xvar w (date_str i day) 0) + a (Xvar w (date_str i day) 1)
   + a (Xvar w (date_str i day) 2) + a (Xvar w (date_str i day) 3) == 1)%Q.
Proof.
  intros Hw Hday.
  pose proof (feasible_holds _ (one_shift_in_model w day Hw Hday)) as Hc.
  unfold holds, eval in Hc. cbn in Hc. lra.
Qed.

Lemma feasible_days_off w :
  w ∈ workers i ->
  (Qsum ((fun day => a (Xvar w (date_str i day) 0)) <$> range (n_days i))
   == inject_Z (days_off_dict i !!! w))%Q.
Proof.
  intros Hw. pose proof (feasible_holds _ (days_off_in_model w Hw)) as Hc.
  unfold holds in Hc. cbn [days_off snd csense lhs rhs] in Hc.
  rewrite eval_lpSum_fmap, eval_lp_const in Hc. rewrite <- Hc.
  apply Qsum_fmap_ext. intros day _. by rewrite eval_lp_var.
Qed.

Lemma feasible_coverage half label day :
  (half = 1 /\ label = "hard_full_and_first_"%string)
  \/ (half = 2 /\ label = "hard_full_and_second_"%string) ->
  day ∈ range (n_days i) ->
  (inject_Z (n_workers_per_day i) - a penalty
   <= Qsum ((fun w => (1 # 2) * a (Xvar w (date_str i day) half)
                      + a (Xvar w (date_str i day) 3)) <$> workers i))%Q.
Proof.
  intros Hhalf Hday. destruct (coverage_in_model day Hday) as [H1 H2].
  assert (Hc : holds a (coverage i label half (date_str i day)).2).
  { destruct Hhalf as [[-> ->]|[-> ->]]; by apply feasible_holds. }
  unfold holds in Hc. cbn [coverage snd csense lhs rhs] in Hc.
  rewrite eval_lpSum_fmap, eval_lp_sub, eval_lp_const, eval_lp_var in Hc.
  eapply Qle_trans; [exact Hc|]. apply Qle_lteq; right.
  apply Qsum_fmap_ext. intros w _.
  rewrite eval_lp_add, eval_lp_scale, !eval_lp_var. ring.
Qed.
End ModelFacts.

(** ** The variables of the model are entries of [x] *)

Lemma expr_vars_lpSum_fmap {A} (f : A -> LpAffineExpression) (l : list A) v :
  v ∈ expr_vars (lpSum (f <$> l)) -> exists x, x ∈ l /\ v ∈ expr_vars (f x).
Proof.
  induction l as [|x l IH]; intros Hv.
  - by apply elem_of_nil in Hv.
  - rewrite fmap_cons in Hv. unfold expr_vars in Hv. cbn [lpSum fold_right lp_add terms] in Hv.
    rewrite fmap_app in Hv. apply elem_of_app in Hv as [Hv|Hv].
    + exists x. split; [apply list_elem_of_here|done].
    + destruct (IH Hv) as (y & Hy & Hvy). exists y.
      split; [by apply list_elem_of_further|done].
Qed.

Lemma x_keys_spec `{Calendar} (i : Inputs) w day k :
  w ∈ workers i -> day ∈ range (n_days i) -> k ∈ shift_types ->
  (w, date_str i day, k) ∈ x_keys i.
Proof.
  intros Hw Hday Hk. unfold x_keys.
  apply list_elem_of_bind. exists w. split; [|done].
  apply list_elem_of_bind. exists day. split; [|done].
  apply list_elem_of_bind. exists k. split; [|done].
  apply list_elem_of_here.
Qed.

(** every [x[worker, date_str, shift_type]] of lines 70-76 finds its key *)
Lemma variables_in_x `{Calendar} (i : Inputs) v :
  v ∈ variables (model i) ->
  v = penalty \/ exists w d k, (w, d, k) ∈ x_keys i /\ v = Xvar w d k.
Proof.
  unfold variables. intros Hv. apply elem_of_app in Hv as [Hv|Hv].
  - left. cbn in Hv. by apply list_elem_of_singleton in Hv.
  - apply list_elem_of_join in Hv as (vs & Hv & Hvs).
    apply list_elem_of_fmap in Hvs as (nc & -> & Hnc).
    apply constraints_model_inv in Hnc
      as [(w & day & Hw & Hday & ->)|[(day & Hday & Hcov)|(w & Hw & ->)]].
    + right. apply elem_of_app in Hv as [Hv|Hv]; [|by apply elem_of_nil in Hv].
      cbn [one_shift snd lhs] in Hv.
      apply expr_vars_lpSum_fmap in Hv as (k & Hk & Hv).
      apply list_elem_of_singleton in Hv as ->.
      exists w, (date_str i day), k. split; [by apply x_keys_spec|done].
    + assert (Hc : exists label half, (half = 1 \/ half = 2)
                /\ nc = coverage i label half (date_str i day)).
      { destruct Hcov as [-> | ->]; eauto 6. }
      destruct Hc as (label & half & Hhalf & ->).
      apply elem_of_app in Hv as [Hv|Hv].
      * right. cbn [coverage snd lhs] in Hv.
        apply expr_vars_lpSum_fmap in Hv as (w & Hw & Hv).
        cbn in Hv. exists w, (date_str i day).
        elem_of_inv Hv.
        -- exists half. split; [|done]. apply x_keys_spec; [done|done|].
           destruct Hhalf as [-> | ->]; elem_of_here.
        -- exists 3. split; [|done]. apply x_keys_spec; [done|done|elem_of_here].
      * left. cbn in Hv. by apply list_elem_of_singleton in Hv.
    + right. apply elem_of_app in Hv as [Hv|Hv]; [|by apply elem_of_nil in Hv].
      cbn [days_off snd lhs] in Hv.
      apply expr_vars_lpSum_fmap in Hv as (day & Hday & Hv).
      apply list_elem_of_singleton in Hv as ->.
      exists w, (date_str i day), 0.
      split; [apply x_keys_spec; [done|done|elem_of_here]|done].
Qed.

(** ** Truthiness of solver values *)

Lemma truthy_Some_zero q : (q == 0)%Q -> truthy (Some q) = false.
Proof. intros Hq. simpl. apply Qeq_bool_iff in Hq. by rewrite Hq. Qed.

Lemma truthy_Some_nonzero q : ~ (q == 0)%Q -> truthy (Some q) = true.
Proof.
  intros Hq. simpl. destruct (Qeq_bool q 0) eqn:Hb; [|done].
  by apply Qeq_bool_iff in Hb.
Qed.

Lemma truthy_Some_one q : (q == 1)%Q -> truthy (Some q) = true.
Proof. intros Hq. apply truthy_Some_nonzero. rewrite Hq. discriminate. Qed.

(** ** The label of a cell *)

Lemma cell_label_cases varValue w d :
  ((forall k, k ∈ shift_types -> truthy (varValue (Xvar w d k)) = false)
   /\ cell_label varValue w d = EmptyString)
  \/ exists k, k ∈ shift_types
       /\ truthy (varValue (Xvar w d k)) = true
       /\ (forall k', k' ∈ shift_types -> k < k' ->
             truthy (varValue (Xvar w d k')) = false)
       /\ od_get k shift_mapping = Some (cell_label varValue w d).
Proof.
  unfold cell_label, selected, shift_types.
  destruct (truthy (varValue (Xvar w d 3))) eqn:H3.
  { right. exists 3. rewrite !filter_cons, H3.
    repeat (destruct (decide _)); try done;
      (split; [elem_of_here|]; split; [done|]; split; [|done]);
      intros k' Hk' Hlt; elem_of_inv Hk'; lia. }
  destruct (truthy (varValue (Xvar w d 2))) eqn:H2.
  { right. exists 2. rewrite !filter_cons, H3, H2.
    repeat (destruct (decide _)); try done;
      (split; [elem_of_here|]; split; [done|]; split; [|done]);
      intros k' Hk' Hlt; elem_of_inv Hk'; (lia || done). }
  destruct (truthy (varValue (Xvar w d 1))) eqn:H1.
  { right. exists 1. rewrite !filter_cons, H3, H2, H1.
    repeat (destruct (decide _)); try done;
      (split; [elem_of_here|]; split; [done|]; split; [|done]);
      intros k' Hk' Hlt; elem_of_inv Hk'; (lia || done). }
  destruct (truthy (varValue (Xvar w d 0))) eqn:H0.
  { right. exists 0. rewrite !filter_cons, H3, H2, H1, H0.
    repeat (destruct (decide _)); try done;
      (split; [elem_of_here|]; split; [done|]; split; [|done]);
      intros k' Hk' Hlt; elem_of_inv Hk'; (lia || done). }
  left. rewrite !filter_cons, H3, H2, H1, H0.
  repeat (destruct (decide _)); try done.
  split; [|done]. intros k Hk. elem_of_inv Hk; done.
Qed.

(** ** Decoding the values of a feasible assignment *)

Section FeasibleDecoding.
Context `{Calendar}.
Variable i : Inputs.
Variable a : LpVar -> Q.
Variable varValue : LpVar -> option Q.
Hypothesis Hfeas : feasible (model i) a.
Hypothesis Hval : forall v, v ∈ variables (model i) -> varValue v = Some (a v).

(** exactly one of the four variables of a cell is 1 *)
Lemma feasible_one_hot w day :
  w ∈ workers i -> day ∈ range (n_days i) ->
  exists k, k ∈ shift_types
    /\ forall k', k' ∈ shift_types ->
         (a (Xvar w (date_str i day) k') == if decide (k' = k) then 1 else 0)%Q.
Proof.
  intros Hw Hday.
  pose proof (feasible_one_shift i a Hfeas w day Hw Hday) as Hsum.
  assert (H0 := feasible_binary i a Hfeas w day 0 Hw Hday ltac:(elem_of_here)).
  assert (H1 := feasible_binary i a Hfeas w day 1 Hw Hday ltac:(elem_of_here)).
  assert (H2 := feasible_binary i a Hfeas w day 2 Hw Hday ltac:(elem_of_here)).
  assert (H3 := feasible_binary i a Hfeas w day 3 Hw Hday ltac:(elem_of_here)).
  destruct H0 as [H0|H0], H1 as [H1|H1], H2 as [H2|H2], H3 as [H3|H3];
    try (exfalso; lra).
  - exists 3. split; [elem_of_here|]. intros k' Hk'. elem_of_inv Hk'; done.
  - exists 2. split; [elem_of_here|]. intros k' Hk'. elem_of_inv Hk'; done.
  - exists 1. split; [elem_of_here|]. intros k' Hk'. elem_of_inv Hk'; done.
  - exists 0. split; [elem_of_here|]. intros k' Hk'. elem_of_inv Hk'; done.
Qed.

(** and the decoded cell carries the label of that kind *)
Lemma feasible_decoded_cell w day :
  w ∈ workers i -> day ∈ range (n_days i) ->
  exists k, k ∈ shift_types
    /\ (forall k', k' ∈ shift_types ->
          (a (Xvar w (date_str i day) k') == if decide (k' = k) then 1 else 0)%Q)
    /\ cell_of (decode i varValue) w (date_str i day) = od_get k shift_mapping.
Proof.
  intros Hw Hday. destruct (feasible_one_hot w day Hw Hday) as (k & Hk & Hone).
  exists k. split; [done|]. split; [done|].
  rewrite (decode_cell_of i varValue w day Hw Hday).
  assert (Htruthy : forall k', k' ∈ shift_types ->
            truthy (varValue (Xvar w (date_str i day) k'))
            = if decide (k' = k) then true else false).
  { intros k' Hk'. rewrite Hval by (by apply xvar_in_variables).
    specialize (Hone k' Hk'). destruct (decide (k' = k)).
    - by apply truthy_Some_one.
    - by apply truthy_Some_zero. }
  destruct (cell_label_cases varValue w (date_str i day))
    as [[Hnone _]|(k2 & Hk2 & Ht2 & _ & Hlabel)].
  - specialize (Hnone k Hk). rewrite (Htruthy k Hk), decide_True in Hnone; done.
  - rewrite (Htruthy k2 Hk2) in Ht2. destruct (decide (k2 = k)) as [->|]; done.
Qed.
End FeasibleDecoding.

(** the labels of [shift_mapping] *)
Lemma shift_mapping_labels k :
  k ∈ shift_types ->
  exists label, od_get k shift_mapping = Some label
    /\ label ∈ ["Off"; "First Half"; "Second Half"; "Full Day"]%string
    /\ (label = "Off"%string <-> k = 0).
Proof.
  intros Hk. unfold shift_types in Hk.
  elem_of_inv Hk; eexists; (split; [reflexivity|]); (split; [elem_of_here|]);
    split; (done || lia).
Qed.

(** ** The dict of requested days off *)

Lemma days_off_dict_lookup (i : Inputs) w :
  w ∈ workers i -> days_off_dict i !!! w = days_off_widget i w.
Proof.
  unfold days_off_dict. intros Hw.
  assert (Hgen : forall ws (d : gmap string Z),
            fold_left (fun d worker => <[worker := days_off_widget i worker]> d) ws d
              !! w
            = if decide (w ∈ ws) then Some (days_off_widget i w) else d !! w).
  { induction ws as [|w0 ws IH]; intros d; cbn [fold_left].
    - rewrite decide_False; [done|]. apply not_elem_of_nil.
    - rewrite IH. destruct (decide (w ∈ ws)) as [Hin|Hnin].
      + rewrite decide_True; [done|]. by apply list_elem_of_further.
      + destruct (decide (w0 = w)) as [->|Hne].
        * rewrite decide_True by apply list_elem_of_here.
          by rewrite lookup_insert_eq.
        * rewrite decide_False.
          -- by rewrite lookup_insert_ne.
          -- intros Hin. apply elem_of_cons in Hin as [->|Hin]; done. }
  unfold lookup_total, map_lookup_total. rewrite Hgen, decide_True; done.
Qed.

(** ** Runs of the script *)

Section Runs.
Context `{Calendar} `{Solver}.
Variable i : Inputs.

Lemma app_end_before_start :
  end_date i < start_date i ->
  app i = [st_warning "The end date should be after the start date."; st_stop].
Proof. intros Hlt. unfold app. by rewrite (proj2 (Z.ltb_lt _ _) Hlt). Qed.

Lemma app_name_count :
  start_date i <= end_date i ->
  Z.of_nat (length (workers i)) ≠ n_workers i ->
  app i = [st_warning "The number of worker names should match the number of workers.";
           st_stop].
Proof.
  intros Hle Hne. unfold app.
  rewrite (proj2 (Z.ltb_ge _ _) Hle), (proj2 (Z.eqb_neq _ _) Hne). done.
Qed.

Lemma app_validated :
  validated i ->
  app i = model_solve (model i)
          :: (if (solve (model i)).1 =? 1 then
                [st_success "Optimal solution found.";
                 st_write (decode i (solve (model i)).2);
                 st_markdown_csv_link (decode i (solve (model i)).2)]
              else [st_error "No solution found."]).
Proof.
  intros [Hle Hlen]. unfold app.
  rewrite (proj2 (Z.ltb_ge _ _) Hle), (proj2 (Z.eqb_eq _ _) Hlen).
  cbn [negb]. by destruct (solve (model i)) as [status varValue].
Qed.
End Runs.

(** * The properties of the specification *)

(** C8: after the checks the solver is called once, on the model as built;
    a status other than 1 gives exactly the error "No solution found." and
    neither table nor CSV link, and status 1 gives the success message
    "Optimal solution found." followed by the table and the link. *)
Theorem solve_outcome `{Calendar} `{Solver} (i : Inputs) :
  validated i ->
  ((solve (model i)).1 ≠ 1 ->
     app i = [model_solve (model i); st_error "No solution found."]
     /\ filter is_table_output (app i) = [])
  /\ ((solve (model i)).1 = 1 ->
        app i = [model_solve (model i);
                 st_success "Optimal solution found.";
                 st_write (decode i (solve (model i)).2);
                 st_markdown_csv_link (decode i (solve (model i)).2)])
  /\ filter is_model_solve (app i) = [model_solve (model i)].
Proof.
  intros Hv. rewrite (app_validated i Hv).
  destruct (Z.eqb_spec (solve (model i)).1 1) as [Heq|Hne].
  - split; [done|]. split; done.
  - split; [done|]. split; done.
Qed.

(** C9: when the end date precedes the start date, or the number of
    comma-separated names differs from the declared number of workers, the
    run consists of one warning and the stop: no model is built or solved
    and no table is shown. *)
Theorem invalid_input_halts `{Calendar} `{Solver} (i : Inputs) :
  end_date i < start_date i \/ Z.of_nat (length (workers i)) ≠ n_workers i ->
  (exists body, app i = [st_warning body; st_stop])
  /\ (end_date i < start_date i ->
        app i = [st_warning "The end date should be after the start date.";
                 st_stop])
  /\ (start_date i <= end_date i ->
        app i = [st_warning "The number of worker names should match the number of workers.";
                 st_stop])
  /\ filter is_model_solve (app i) = []
  /\ filter is_table_output (app i) = [].
Proof.
  intros Hbad.
  destruct (Z.lt_ge_cases (end_date i) (start_date i)) as [Hlt|Hle].
  - rewrite (app_end_before_start i Hlt).
    split; [eauto|]. split; [done|]. split; [lia|]. done.
  - destruct Hbad as [Hlt|Hne]; [lia|]. rewrite (app_name_count i Hle Hne).
    split; [eauto|]. split; [lia|]. done.
Qed.

(** C7, as the code has it: every cell of the decoded table holds the
    label of the last shift kind, in the order Off, First Half, Second
    Half, Full Day, whose variable value is truthy (a number other than
    zero), and the blank of line 83 when no value is truthy. *)
Theorem decoder_last_truthy `{Calendar} (i : Inputs)
    (varValue : LpVar -> option Q) (w : string) (day : Z) :
  w ∈ workers i -> day ∈ range (n_days i) ->
  exists label,
    cell_of (decode i varValue) w (date_str i day) = Some label
    /\ (((forall k, k ∈ shift_types ->
            truthy (varValue (Xvar w (date_str i day) k)) = false)
         /\ label = EmptyString)
        \/ exists k, k ∈ shift_types
             /\ truthy (varValue (Xvar w (date_str i day) k)) = true
             /\ (forall k', k' ∈ shift_types -> k < k' ->
                   truthy (varValue (Xvar w (date_str i day) k')) = false)
             /\ od_get k shift_mapping = Some label).
Proof.
  intros Hw Hday. exists (cell_label varValue w (date_str i day)).
  split; [by apply decode_cell_of|]. apply cell_label_cases.
Qed.

(** C7, as stated, fails. In the one-worker, one-day request, with the
    values of Off and Full Day both 1 the decoded cell is "Full Day", the
    last selected kind, where the first would be "Off"; and with First Half
    at 1/4 and all else 0 the decoded cell is "First Half", though no value
    reaches 0.5. *)
Lemma decoder_first_selected_counterexample :
  "A"%string ∈ workers Examples.solo
  /\ 0 ∈ range (n_days Examples.solo)
  /\ cell_of (@decode iso_calendar Examples.solo Examples.tie_values)
             "A" (@date_str iso_calendar Examples.solo 0)
     = Some "Full Day"%string
  /\ spec_cell_label Examples.tie_values
                     "A" (@date_str iso_calendar Examples.solo 0)
     = "Off"%string
  /\ cell_of (@decode iso_calendar Examples.solo Examples.quarter_values)
             "A" (@date_str iso_calendar Examples.solo 0)
     = Some "First Half"%string
  /\ spec_cell_label Examples.quarter_values
                     "A" (@date_str iso_calendar Examples.solo 0)
     = EmptyString
  /\ cell_of (@decode iso_calendar Examples.solo Examples.tie_values)
             "A" (@date_str iso_calendar Examples.solo 0)
     ≠ Some (spec_cell_label Examples.tie_values
                             "A" (@date_str iso_calendar Examples.solo 0)).
Proof.
  split; [vm_compute; elem_of_here|]. split; [vm_compute; elem_of_here|].
  repeat (split; [by vm_compute|]). by vm_compute.
Qed.

Lemma Qsum_count {A} (f : A -> Q) (P : A -> Prop) `{!forall x, Decision (P x)}
    (l : list A) :
  (forall x, x ∈ l -> (P x /\ (f x == 1)%Q) \/ (~ P x /\ (f x == 0)%Q)) ->
  (Qsum (f <$> l) == inject_Z (Z.of_nat (length (filter P l))))%Q.
Proof.
  induction l as [|x l IH]; intros Hl; [reflexivity|].
  rewrite fmap_cons, Qsum_cons, IH
    by (intros y Hy; apply Hl; by apply list_elem_of_further).
  destruct (Hl x (list_elem_of_here _ _)) as [[HP Hf]|[HP Hf]].
  - rewrite filter_cons_True by done. cbn [length].
    rewrite Nat2Z.inj_succ, <- Z.add_1_l, inject_Z_plus, Hf. reflexivity.
  - rewrite filter_cons_False by done. rewrite Hf. ring.
Qed.

(** C1: a request that passes the checks is modelled with, for every worker
    and every date of the range, the constraint that the four shift
    variables of that cell sum to 1; and after a solve with status 1 every
    cell of the table shown holds one of the four labels, the one of the
    single kind whose variable is 1. *)
Theorem exactly_one_shift `{Calendar} `{Solver} (i : Inputs) :
  validated i ->
  solver_answer (model i) (solve (model i)) ->
  model_solve (model i) ∈ app i
  /\ (forall w day, w ∈ workers i -> day ∈ range (n_days i) ->
        exists name c,
          (name, c) ∈ constraints (model i)
          /\ csense c = LpConstraintEQ
          /\ forall a,
               (eval a (lhs c)
                == a (Xvar w (date_str i day) 0) + a (Xvar w (date_str i day) 1)
                   + a (Xvar w (date_str i day) 2) + a (Xvar w (date_str i day) 3))%Q
               /\ (eval a (rhs c) == 1)%Q)
  /\ ((solve (model i)).1 = 1 ->
        exists df,
          st_write df ∈ app i
          /\ (forall w day, w ∈ workers i -> day ∈ range (n_days i) ->
                exists k label,
                  k ∈ shift_types
                  /\ od_get k shift_mapping = Some label
                  /\ cell_of df w (date_str i day) = Some label
                  /\ label ∈ ["Off"; "First Half"; "Second Half"; "Full Day"]%string
                  /\ forall k', k' ∈ shift_types ->
                       exists q,
                         (solve (model i)).2 (Xvar w (date_str i day) k') = Some q
                         /\ (q == if decide (k' = k) then 1 else 0)%Q)
          /\ forall w s label, cell_of df w s = Some label ->
               label ∈ ["Off"; "First Half"; "Second Half"; "Full Day"]%string).
Proof.
  intros Hv [Hsound _]. rewrite (app_validated i Hv).
  split; [apply list_elem_of_here|]. split.
  - intros w day Hw Hday. eexists _, _.
    split; [exact (one_shift_in_model i w day Hw Hday)|].
    split; [done|]. intros a. unfold eval. cbn. split; lra.
  - intros Hst. rewrite Hst. cbn [Z.eqb Pos.eqb].
    destruct (Hsound Hst) as (a & [Hfeas _] & Hval).
    exists (decode i (solve (model i)).2).
    split; [elem_of_here|]. split.
    + intros w day Hw Hday.
      destruct (feasible_decoded_cell i a _ Hfeas Hval w day Hw Hday)
        as (k & Hk & Hone & Hcell).
      destruct (shift_mapping_labels k Hk) as (label & Hlabel & Hin & _).
      exists k, label. rewrite Hcell.
      repeat (split; [done|]). intros k' Hk'.
      exists (a (Xvar w (date_str i day) k')).
      split; [|by apply Hone]. apply Hval. by apply xvar_in_variables.
    + intros w s label Hcell.
      destruct (decode_cell_dom i (solve (model i)).2 w s) as (Hw & day & Hday & ->).
      { by rewrite Hcell. }
      destruct (feasible_decoded_cell i a _ Hfeas Hval w day Hw Hday)
        as (k & Hk & _ & Hcell').
      destruct (shift_mapping_labels k Hk) as (label' & Hlabel & Hin & _).
      rewrite Hcell, Hlabel in Hcell'. by injection Hcell' as ->.
Qed.

(** C2: after a solve with status 1, for every worker the number of dates
    of the range whose cell in the table shown is "Off" equals the value
    requested for that worker; the model holds the quota as an equality
    between the sum of the worker's Off variables and that value. *)
Theorem days_off_exact `{Calendar} `{Solver} (i : Inputs) :
  validated i ->
  solver_answer (model i) (solve (model i)) ->
  (solve (model i)).1 = 1 ->
  exists df,
    st_write df ∈ app i
    /\ forall w, w ∈ workers i ->
         Z.of_nat (length (filter (fun day => cell_of df w (date_str i day)
                                              = Some "Off"%string)
                                  (range (n_days i))))
         = days_off_widget i w
         /\ exists name c,
              (name, c) ∈ constraints (model i)
              /\ csense c = LpConstraintEQ
              /\ forall a,
                   (eval a (lhs c)
                    == Qsum ((fun day => a (Xvar w (date_str i day) 0))
                             <$> range (n_days i)))%Q
                   /\ (eval a (rhs c) == inject_Z (days_off_widget i w))%Q.
Proof.
  intros Hv [Hsound _] Hst. rewrite (app_validated i Hv), Hst. cbn [Z.eqb Pos.eqb].
  destruct (Hsound Hst) as (a & [Hfeas _] & Hval).
  exists (decode i (solve (model i)).2). split; [elem_of_here|].
  intros w Hw. split.
  - apply inject_Z_injective.
    rewrite <- (days_off_dict_lookup i w Hw), <- (feasible_days_off i a Hfeas w Hw).
    symmetry. apply Qsum_count. intros day Hday.
    destruct (feasible_decoded_cell i a _ Hfeas Hval w day Hw Hday)
      as (k & Hk & Hone & Hcell).
    destruct (shift_mapping_labels k Hk) as (label & Hlabel & _ & Hoff).
    rewrite Hcell, Hlabel.
    specialize (Hone 0 ltac:(elem_of_here)).
    destruct (decide (0 = k)) as [<-|Hne].
    + left. split; [|done]. f_equal. by apply Hoff.
    + right. split; [|done]. intros [= Heq]. apply Hoff in Heq. done.
  - eexists _, _. split; [exact (days_off_in_model i w Hw)|].
    split; [done|]. intros a'. cbn [days_off lhs rhs].
    rewrite eval_lpSum_fmap, eval_lp_const, (days_off_dict_lookup i w Hw).
    split; [|reflexivity]. apply Qsum_fmap_ext. intros day _. apply eval_lp_var.
Qed.

(** C3: every day of the range has the two coverage constraints, first
    half and second half, each a [>=] between the workers' weighted sum
    (one half for the half-day kind, one for Full Day) and the required
    staffing minus [penalty]; all of them subtract the same variable
    [penalty], the only continuous variable of the model, which is bounded
    below by 0 and unbounded above; the model maximises its negation. *)
Theorem coverage_shared_penalty `{Calendar} (i : Inputs) :
  sense (model i) = LpMaximize
  /\ (forall a, (eval a (objective (model i)) == - a penalty)%Q)
  /\ (lowBound (declared penalty) = Some 0%Q
      /\ upBound (declared penalty) = None
      /\ cat (declared penalty) = LpContinuous)
  /\ (forall v, v ∈ variables (model i) ->
        cat (declared v) = LpContinuous -> v = penalty)
  /\ forall day, day ∈ range (n_days i) ->
       exists c1 c2,
         (("hard_full_and_first_" +:+ date_str i day)%string, c1)
           ∈ constraints (model i)
         /\ (("hard_full_and_second_" +:+ date_str i day)%string, c2)
              ∈ constraints (model i)
         /\ csense c1 = LpConstraintGE /\ csense c2 = LpConstraintGE
         /\ rhs c1 = lp_sub (lp_const (inject_Z (n_workers_per_day i)))
                            (lp_var penalty)
         /\ rhs c2 = rhs c1
         /\ forall a,
              (eval a (lhs c1)
               == Qsum ((fun w => (1 # 2) * a (Xvar w (date_str i day) 1)
                                  + 1 * a (Xvar w (date_str i day) 3))
                        <$> workers i))%Q
              /\ (eval a (lhs c2)
                  == Qsum ((fun w => (1 # 2) * a (Xvar w (date_str i day) 2)
                                     + 1 * a (Xvar w (date_str i day) 3))
                           <$> workers i))%Q
              /\ (eval a (rhs c1)
                  == inject_Z (n_workers_per_day i) - a penalty)%Q.
Proof.
  split; [done|]. split.
  { intros a. cbn [model objective]. rewrite eval_lp_neg, eval_lp_var. reflexivity. }
  split; [done|]. split.
  { intros [|w d k] _ Hcat; [done|discriminate]. }
  intros day Hday. destruct (coverage_in_model i day Hday) as [H1 H2].
  eexists _, _. split; [exact H1|]. split; [exact H2|].
  repeat (split; [done|]). intros a. cbn [lhs rhs].
  rewrite !eval_lpSum_fmap, eval_lp_sub, eval_lp_const, eval_lp_var.
  split; [|split; [|reflexivity]]; apply Qsum_fmap_ext; intros w _;
    rewrite eval_lp_add, eval_lp_scale, !eval_lp_var; ring.
Qed.

(** ** Quotas above the number of days *)

Lemma Qsum_le_length {A} (f : A -> Q) (l : list A) :
  (forall x, x ∈ l -> (f x <= 1)%Q) ->
  (Qsum (f <$> l) <= inject_Z (Z.of_nat (length l)))%Q.
Proof.
  induction l as [|x l IH]; intros Hl; [apply Qle_refl|].
  rewrite fmap_cons, Qsum_cons. cbn [length].
  rewrite Nat2Z.inj_succ, <- Z.add_1_l, inject_Z_plus.
  assert (f x <= 1)%Q by apply Hl, list_elem_of_here.
  assert (Qsum (f <$> l) <= inject_Z (Z.of_nat (length l)))%Q.
  { apply IH. intros y Hy. by apply Hl, list_elem_of_further. }
  change (inject_Z 1) with 1%Q. lra.
Qed.

Lemma excess_quota_infeasible `{Calendar} (i : Inputs) (a : LpVar -> Q) w :
  start_date i <= end_date i ->
  w ∈ workers i -> n_days i < days_off_widget i w ->
  ~ feasible (model i) a.
Proof.
  intros Hle Hw Hq Hfeas.
  pose proof (feasible_days_off i a Hfeas w Hw) as Hsum.
  rewrite (days_off_dict_lookup i w Hw) in Hsum.
  assert (Hub : (Qsum ((fun day => a (Xvar w (date_str i day) 0))
                       <$> range (n_days i))
                 <= inject_Z (Z.of_nat (length (range (n_days i)))))%Q).
  { apply Qsum_le_length. intros day Hday.
    destruct (feasible_binary i a Hfeas w day 0 Hw Hday ltac:(elem_of_here))
      as [-> | ->]; discriminate. }
  rewrite Hsum, length_range in Hub. rewrite <- Zle_Qle in Hub.
  unfold n_days in *. lia.
Qed.

(** C5: when a worker's requested number of days off exceeds the number
    of days of the range, no assignment satisfies the model (its Off
    variables are at most 1 each and must sum to the request), the solver's
    status is not 1, and the run ends with "No solution found.". *)
Theorem excess_days_off_fails `{Calendar} `{Solver} (i : Inputs) (w : string) :
  validated i ->
  solver_answer (model i) (solve (model i)) ->
  w ∈ workers i ->
  n_days i < days_off_widget i w ->
  (forall a, ~ feasible (model i) a)
  /\ (forall a,
        (forall day, day ∈ range (n_days i) ->
           (a (Xvar w (date_str i day) 0) <= 1)%Q) ->
        ~ holds a (days_off i w).2)
  /\ (solve (model i)).1 ≠ 1
  /\ app i = [model_solve (model i); st_error "No solution found."].
Proof.
  intros Hv [Hsound _] Hw Hq.
  assert (Hinf : forall a, ~ feasible (model i) a).
  { intros a. by apply (excess_quota_infeasible i a w (proj1 Hv)). }
  assert (Hst : (solve (model i)).1 ≠ 1).
  { intros Hst. destruct (Hsound Hst) as (a & [Hfeas _] & _). by apply (Hinf a). }
  split; [done|]. split; [|split; [done|]].
  - intros a Hbin Hc. unfold holds in Hc. cbn [days_off snd csense lhs rhs] in Hc.
    rewrite eval_lpSum_fmap, eval_lp_const, (days_off_dict_lookup i w Hw) in Hc.
    assert (Hub : (Qsum ((fun day => eval a (lp_var (Xvar w (date_str i day) 0)))
                         <$> range (n_days i))
                   <= inject_Z (Z.of_nat (length (range (n_days i)))))%Q).
    { apply Qsum_le_length. intros day Hday. rewrite eval_lp_var. by apply Hbin. }
    rewrite Hc, length_range in Hub. rewrite <- Zle_Qle in Hub.
    destruct Hv as [Hle _]. unfold n_days in *. lia.
  - rewrite (app_validated i Hv).
    by rewrite (proj2 (Z.eqb_neq _ _) Hst).
Qed.

(** ** Changing the required staffing *)

Section Required.
Context `{Calendar}.
Variable i : Inputs.

Lemma holds_coverage_le n1 n2 a label half date :
  n1 <= n2 ->
  holds a (coverage (with_required i n2) label half date).2 ->
  holds a (coverage (with_required i n1) label half date).2.
Proof.
  intros Hle. unfold holds. cbn [coverage snd csense lhs rhs].
  rewrite !eval_lp_sub, !eval_lp_const, !eval_lp_var.
  cbn [n_workers_per_day with_required]. intros Hc.
  eapply Qle_trans; [|exact Hc].
  rewrite Zle_Qle in Hle. lra.
Qed.

(** an assignment that meets a staffing level meets every lower one *)
Lemma feasible_with_required_le n1 n2 a :
  n1 <= n2 ->
  feasible (model (with_required i n2)) a ->
  feasible (model (with_required i n1)) a.
Proof.
  intros Hle [Hdom Hall]. split.
  - intros v Hv. apply Hdom.
    unfold variables in *. rewrite !elem_of_app in *.
    destruct Hv as [Hv|Hv]; [by left|right].
    apply list_elem_of_join in Hv as (vs & Hv & Hvs).
    apply list_elem_of_fmap in Hvs as (nc & -> & Hnc).
    apply constraints_model_inv in Hnc
      as [(w & day & Hw & Hday & ->)|[(day & Hday & [-> | ->])|(w & Hw & ->)]].
    + apply list_elem_of_join. eexists. split; [exact Hv|].
      apply (list_elem_of_fmap_2
               (fun nc => expr_vars (lhs nc.2) ++ expr_vars (rhs nc.2))).
      exact (one_shift_in_model (with_required i n2) w day Hw Hday).
    + apply list_elem_of_join. eexists. split; [exact Hv|].
      apply (list_elem_of_fmap_2
               (fun nc => expr_vars (lhs nc.2) ++ expr_vars (rhs nc.2))
               _ (coverage (with_required i n2) "hard_full_and_first_" 1
                           (date_str i day))).
      exact (proj1 (coverage_in_model (with_required i n2) day Hday)).
    + apply list_elem_of_join. eexists. split; [exact Hv|].
      apply (list_elem_of_fmap_2
               (fun nc => expr_vars (lhs nc.2) ++ expr_vars (rhs nc.2))
               _ (coverage (with_required i n2) "hard_full_and_second_" 2
                           (date_str i day))).
      exact (proj2 (coverage_in_model (with_required i n2) day Hday)).
    + apply list_elem_of_join. eexists. split; [exact Hv|].
      apply (list_elem_of_fmap_2
               (fun nc => expr_vars (lhs nc.2) ++ expr_vars (rhs nc.2))).
      exact (days_off_in_model (with_required i n2) w Hw).
  - rewrite Forall_forall in Hall. apply Forall_forall. intros nc Hnc.
    apply constraints_model_inv in Hnc
      as [(w & day & Hw & Hday & ->)|[(day & Hday & [-> | ->])|(w & Hw & ->)]].
    + apply (Hall _ (one_shift_in_model (with_required i n2) w day Hw Hday)).
    + apply (holds_coverage_le n1 n2); [done|].
      apply (Hall _ (proj1 (coverage_in_model (with_required i n2) day Hday))).
    + apply (holds_coverage_le n1 n2); [done|].
      apply (Hall _ (proj2 (coverage_in_model (with_required i n2) day Hday))).
    + apply (Hall _ (days_off_in_model (with_required i n2) w Hw)).
Qed.

Lemma merit_model a : (merit (model i) a == - a penalty)%Q.
Proof.
  unfold merit. cbn [model sense objective].
  rewrite eval_lp_neg, eval_lp_var. reflexivity.
Qed.
End Required.

(** C6: of two requests that differ only in the required staffing per
    day, the one with the larger requirement has the larger or equal
    penalty at the optimum. *)
Theorem penalty_monotone `{Calendar} (i : Inputs) (n1 n2 : Z)
    (a1 a2 : LpVar -> Q) :
  n1 <= n2 ->
  optimal (model (with_required i n1)) a1 ->
  optimal (model (with_required i n2)) a2 ->
  (a1 penalty <= a2 penalty)%Q.
Proof.
  intros Hle [_ Hbest1] [Hfeas2 _].
  pose proof (Hbest1 a2 (feasible_with_required_le i n1 n2 a2 Hle Hfeas2)) as Hm.
  rewrite !merit_model in Hm. lra.
Qed.

(** ** Quotas within the range *)

Lemma Qsum_nonneg {A} (f : A -> Q) (l : list A) :
  (forall x, x ∈ l -> (0 <= f x)%Q) -> (0 <= Qsum (f <$> l))%Q.
Proof.
  induction l as [|x l IH]; intros Hl; [apply Qle_refl|].
  rewrite fmap_cons, Qsum_cons.
  assert (0 <= f x)%Q by apply Hl, list_elem_of_here.
  assert (0 <= Qsum (f <$> l))%Q.
  { apply IH. intros y Hy. by apply Hl, list_elem_of_further. }
  lra.
Qed.

Lemma filter_all {A} (P : A -> Prop) `{!forall x, Decision (P x)} (l : list A) :
  (forall x, x ∈ l -> P x) -> filter P l = l.
Proof.
  induction l as [|x l IH]; intros Hl; [done|].
  rewrite filter_cons_True by apply Hl, list_elem_of_here.
  f_equal. apply IH. intros y Hy. by apply Hl, list_elem_of_further.
Qed.

Lemma filter_none {A} (P : A -> Prop) `{!forall x, Decision (P x)} (l : list A) :
  (forall x, x ∈ l -> ~ P x) -> filter P l = [].
Proof.
  induction l as [|x l IH]; intros Hl; [done|].
  rewrite filter_cons_False by apply Hl, list_elem_of_here.
  apply IH. intros y Hy. by apply Hl, list_elem_of_further.
Qed.

(** in a list without repetition, [q] entries are among the first [q] *)
Lemma count_in_prefix {A} `{EqDecision A} (l1 l2 : list A) :
  NoDup (l1 ++ l2) ->
  length (filter (fun x => x ∈ l1) (l1 ++ l2)) = length l1.
Proof.
  intros Hnd. apply NoDup_app in Hnd as (_ & Hdisj & _).
  rewrite filter_app, filter_all, filter_none, app_nil_r; [done| |done].
  intros x Hx2 Hx1. by apply (Hdisj x).
Qed.

Lemma count_in_take {A} `{EqDecision A} (l : list A) (q : nat) :
  NoDup l -> (q <= length l)%nat ->
  length (filter (fun x => x ∈ take q l) l) = q.
Proof.
  intros Hnd Hq. rewrite <- (take_drop q l) in Hnd.
  pose proof (count_in_prefix _ _ Hnd) as Hc.
  rewrite take_drop, length_take in Hc. lia.
Qed.

Section FirstDaysOff.
Context `{Calendar}.
Variable i : Inputs.

Lemma first_days_off_domain v : in_domain (declared v) (first_days_off i v).
Proof.
  destruct v as [|w d k]; unfold in_domain; simpl.
  - split; [|done]. change 0%Q with (inject_Z 0). rewrite <- Zle_Qle. lia.
  - split; [done|]. split; [done|].
    repeat case_decide; try case_bool_decide; (by left) || (by right).
Qed.

Lemma first_days_off_sum w d :
  (first_days_off i (Xvar w d 0) + first_days_off i (Xvar w d 1)
   + first_days_off i (Xvar w d 2) + first_days_off i (Xvar w d 3) == 1)%Q.
Proof.
  cbn [first_days_off]. rewrite !decide_True by done.
  rewrite !decide_False by done. rewrite !decide_True by done.
  by destruct (bool_decide _).
Qed.

Lemma first_days_off_nonneg v : (0 <= first_days_off i v)%Q.
Proof.
  destruct v as [|w d k]; cbn [first_days_off].
  - change 0%Q with (inject_Z 0). rewrite <- Zle_Qle. lia.
  - repeat case_decide; try case_bool_decide; done.
Qed.

Lemma first_days_off_quota w :
  NoDup (date_str i <$> range (n_days i)) ->
  0 <= days_off_widget i w <= n_days i ->
  (Qsum ((fun day => first_days_off i (Xvar w (date_str i day) 0))
         <$> range (n_days i))
   == inject_Z (days_off_widget i w))%Q.
Proof.
  intros Hnd Hq.
  set (dates := date_str i <$> range (n_days i)) in *.
  set (q := Z.to_nat (days_off_widget i w)).
  transitivity (Qsum ((fun d => first_days_off i (Xvar w d 0)) <$> dates)).
  { unfold dates. by rewrite <- list_fmap_compose. }
  rewrite (Qsum_count _ (fun d => d ∈ take q dates)).
  - rewrite count_in_take; [unfold q; by rewrite Z2Nat.id by lia|done|].
    unfold dates. rewrite length_fmap, length_range. lia.
  - intros d _. cbn [first_days_off]. rewrite decide_True by done.
    fold dates. fold q. destruct (bool_decide_reflect (d ∈ take q dates)).
    + by left.
    + by right.
Qed.

Lemma first_days_off_feasible :
  NoDup (date_str i <$> range (n_days i)) ->
  (forall w, w ∈ workers i -> 0 <= days_off_widget i w <= n_days i) ->
  feasible (model i) (first_days_off i).
Proof.
  intros Hnd Hq. split.
  - intros v _. apply first_days_off_domain.
  - apply Forall_forall. intros nc Hnc.
    apply constraints_model_inv in Hnc
      as [(w & day & Hw & Hday & ->)|[(day & Hday & Hcov)|(w & Hw & ->)]].
    + unfold holds, eval. cbn -[first_days_off].
      pose proof (first_days_off_sum w (date_str i day)). lra.
    + assert (Hc : exists label half,
                nc = coverage i label half (date_str i day)).
      { destruct Hcov as [-> | ->]; eauto. }
      destruct Hc as (label & half & ->).
      unfold holds. cbn [coverage snd csense lhs rhs].
      rewrite eval_lpSum_fmap, eval_lp_sub, eval_lp_const, eval_lp_var.
      apply Qle_trans with 0%Q.
      * cbn [first_days_off].
        assert (inject_Z (n_workers_per_day i)
                <= inject_Z (Z.max 0 (n_workers_per_day i)))%Q
          by (rewrite <- Zle_Qle; lia).
        lra.
      * apply Qsum_nonneg. intros w _.
        rewrite eval_lp_add, eval_lp_scale, !eval_lp_var.
        pose proof (first_days_off_nonneg (Xvar w (date_str i day) half)).
        pose proof (first_days_off_nonneg (Xvar w (date_str i day) 3)).
        lra.
    + unfold holds. cbn [days_off snd csense lhs rhs].
      rewrite eval_lpSum_fmap, eval_lp_const, (days_off_dict_lookup i w Hw).
      rewrite <- (first_days_off_quota w Hnd (Hq w Hw)).
      apply Qsum_fmap_ext. intros day _. apply eval_lp_var.
Qed.

Lemma model_bounded : bounded (model i).
Proof.
  exists 0%Q. intros a Hfeas. rewrite merit_model.
  pose proof (feasible_penalty i a Hfeas). lra.
Qed.

(** an assignment without penalty cannot be improved *)
Lemma optimal_zero_penalty a :
  feasible (model i) a -> (a penalty == 0)%Q -> optimal (model i) a.
Proof.
  intros Hfeas Hp. split; [done|]. intros a' Hfeas'.
  rewrite !merit_model. pose proof (feasible_penalty i a' Hfeas'). lra.
Qed.
End FirstDaysOff.

(** C4: when every worker's requested number of days off lies between 0
    and the number of days of the range, the model has a feasible
    assignment whatever the required staffing, and the solver, whose
    objective is bounded, returns status 1: the run shows the success
    message and the table. *)
Theorem quotas_in_range_solved `{Calendar} `{Solver} (i : Inputs) :
  validated i ->
  NoDup (date_str i <$> range (n_days i)) ->
  (forall w, w ∈ workers i -> 0 <= days_off_widget i w <= n_days i) ->
  solver_answer (model i) (solve (model i)) ->
  feasible (model i) (first_days_off i)
  /\ (solve (model i)).1 = 1
  /\ exists df,
       app i = [model_solve (model i); st_success "Optimal solution found.";
                st_write df; st_markdown_csv_link df].
Proof.
  intros Hv Hnd Hq [_ Hcomplete].
  pose proof (first_days_off_feasible i Hnd Hq) as Hfeas.
  assert (Hst : (solve (model i)).1 = 1).
  { apply Hcomplete; [eauto|apply model_bounded]. }
  split; [done|]. split; [done|].
  rewrite (app_validated i Hv), Hst. cbn [Z.eqb Pos.eqb]. eauto.
Qed.

(** ** Splitting and stripping *)

Module PyStrFacts.
Import PyStr.

Lemma all_space_app a b : all_space (a +:+ b) = all_space a && all_space b.
Proof.
  induction a as [|c a IH]; [done|]. simpl. rewrite IH.
  by destruct (isspace c).
Qed.

Lemma lstrip_all_space s : all_space s = true -> lstrip s = EmptyString.
Proof.
  induction s as [|c s IH]; [done|]. simpl.
  destruct (isspace c); [|done]. apply IH.
Qed.

Lemma rstrip_all_space s : all_space s = true -> rstrip s = EmptyString.
Proof.
  induction s as [|c s IH]; [done|]. simpl.
  destruct (isspace c); [|done]. simpl. intros Hs. by rewrite IH.
Qed.

Lemma lstrip_app_space l s : all_space l = true -> lstrip (l +:+ s) = lstrip s.
Proof.
  induction l as [|c l IH]; [done|]. simpl.
  destruct (isspace c); [|done]. apply IH.
Qed.

Lemma lstrip_app_nonspace c r :
  all_space c = false -> lstrip (c +:+ r) = lstrip c +:+ r.
Proof.
  induction c as [|ch c IH]; [done|]. simpl.
  destruct (isspace ch); [|done]. apply IH.
Qed.

Lemma rstrip_app_space s r : all_space r = true -> rstrip (s +:+ r) = rstrip s.
Proof.
  intros Hr. induction s as [|c s IH]; simpl.
  - by apply rstrip_all_space.
  - by rewrite IH.
Qed.

(** whitespace around a name does not change the stripped name *)
Lemma strip_padded l c r :
  all_space l = true -> all_space r = true ->
  strip (l +:+ c +:+ r) = strip c.
Proof.
  intros Hl Hr. unfold strip. rewrite lstrip_app_space by done.
  destruct (all_space c) eqn:Hc.
  - rewrite (lstrip_all_space c Hc).
    rewrite lstrip_all_space; [done|]. by rewrite all_space_app, Hc, Hr.
  - rewrite lstrip_app_nonspace by done. by apply rstrip_app_space.
Qed.

Lemma strip_all_space s : all_space s = true -> strip s = EmptyString.
Proof. intros Hs. unfold strip. by rewrite lstrip_all_space. Qed.

Lemma contains_app c a b : contains c (a +:+ b) = contains c a || contains c b.
Proof.
  induction a as [|d a IH]; [done|]. simpl. rewrite IH.
  by destruct (Ascii.eqb d c).
Qed.

Lemma all_space_no_comma s : all_space s = true -> contains "," s = false.
Proof.
  induction s as [|c s IH]; [done|]. simpl.
  destruct (Ascii.eqb_spec c ","%char) as [->|_]; [done|].
  destruct (isspace c); [|done]. apply IH.
Qed.

Lemma split_no_sep sep s : contains sep s = false -> split sep s = [s].
Proof.
  induction s as [|c s IH]; [done|]. simpl.
  destruct (Ascii.eqb c sep); [done|]. simpl. intros Hs. by rewrite IH.
Qed.

Lemma split_app_sep sep f rest :
  contains sep f = false ->
  split sep (f +:+ String sep rest) = f :: split sep rest.
Proof.
  induction f as [|c f IH]; simpl.
  - by rewrite Ascii.eqb_refl.
  - destruct (Ascii.eqb c sep); [done|]. simpl. intros Hf. by rewrite IH.
Qed.

(** splitting undoes joining when no field holds the separator *)
Lemma split_join sep fields :
  fields ≠ [] ->
  Forall (fun f => contains sep f = false) fields ->
  split sep (join sep fields) = fields.
Proof.
  induction fields as [|f fields IH]; [done|]. intros _ Hall.
  apply Forall_cons in Hall as [Hf Hall].
  destruct fields as [|g fields].
  - by apply split_no_sep.
  - change (join sep (f :: g :: fields))
      with (f +:+ String sep (join sep (g :: fields))).
    rewrite split_app_sep by done. f_equal. by apply IH.
Qed.
End PyStrFacts.

(** ** The worker-names field *)

Lemma field_text_no_comma f :
  well_formed_field f -> PyStr.contains "," (field_text f) = false.
Proof.
  intros (Hl & Hr & Hc). unfold field_text.
  rewrite !PyStrFacts.contains_app, Hc.
  by rewrite !PyStrFacts.all_space_no_comma.
Qed.

Lemma strip_field_text f :
  well_formed_field f -> PyStr.strip (field_text f) = PyStr.strip (core f).
Proof. intros (Hl & Hr & _). by apply PyStrFacts.strip_padded. Qed.

Lemma workers_names_text (i : Inputs) (fields : list Field) :
  fields ≠ [] -> Forall well_formed_field fields ->
  workers (with_worker_names i (names_text fields))
  = PyStr.strip <$> (core <$> fields).
Proof.
  intros Hne Hwf. unfold workers, names_text. cbn [worker_names with_worker_names].
  rewrite PyStrFacts.split_join.
  - rewrite <- !list_fmap_compose. apply Forall_fmap_ext.
    eapply Forall_impl; [exact Hwf|]. intros f Hf. by apply strip_field_text.
  - by destruct fields.
  - apply Forall_fmap. eapply Forall_impl; [exact Hwf|]. apply field_text_no_comma.
Qed.

(** the run depends on the worker-names field only through [workers] *)
Lemma app_worker_names `{Calendar} `{Solver} (i : Inputs) (names1 names2 : string) :
  workers (with_worker_names i names1) = workers (with_worker_names i names2) ->
  app (with_worker_names i names1) = app (with_worker_names i names2).
Proof.
  intros Hw.
  unfold app, decode, blank_table, model, days_off, coverage, days_off_dict,
    n_days, date_str.
  cbn [n_workers n_workers_per_day start_date end_date days_off_widget
       with_worker_names].
  by rewrite Hw.
Qed.

Lemma decode_worker_names `{Calendar} (i : Inputs) (names1 names2 : string)
    (varValue : LpVar -> option Q) :
  workers (with_worker_names i names1) = workers (with_worker_names i names2) ->
  decode (with_worker_names i names1) varValue
  = decode (with_worker_names i names2) varValue.
Proof.
  intros Hw. unfold decode, blank_table, n_days, date_str.
  cbn [start_date end_date with_worker_names].
  by rewrite Hw.
Qed.

(** C10: the names are the comma-separated fields with the whitespace
    around each removed. Two texts whose fields differ only in that
    whitespace give the same worker names, the same run and the same row
    labels of the table; a field of whitespace only gives the empty name, and the
    count check accepts it like any other name. *)
Theorem worker_names_stripped `{Calendar} `{Solver} (i : Inputs)
    (fields1 fields2 : list Field) :
  fields1 ≠ [] ->
  Forall well_formed_field fields1 ->
  Forall well_formed_field fields2 ->
  core <$> fields1 = core <$> fields2 ->
  workers (with_worker_names i (names_text fields1))
  = PyStr.strip <$> (core <$> fields1)
  /\ workers (with_worker_names i (names_text fields1))
     = workers (with_worker_names i (names_text fields2))
  /\ app (with_worker_names i (names_text fields1))
     = app (with_worker_names i (names_text fields2))
  /\ (forall varValue,
        od_keys (decode (with_worker_names i (names_text fields1)) varValue)
        = od_keys (decode (with_worker_names i (names_text fields2)) varValue))
  /\ (forall f, f ∈ fields1 -> PyStr.all_space (core f) = true ->
        PyStr.strip (field_text f) = EmptyString)
  /\ (start_date i <= end_date i ->
      Z.of_nat (length fields1) = n_workers i ->
      validated (with_worker_names i (names_text fields1))).
Proof.
  intros Hne Hwf1 Hwf2 Hcore.
  assert (Hne2 : fields2 ≠ []).
  { intros ->. by destruct fields1. }
  assert (Hw1 := workers_names_text i fields1 Hne Hwf1).
  assert (Hw2 := workers_names_text i fields2 Hne2 Hwf2).
  assert (Hw : workers (with_worker_names i (names_text fields1))
               = workers (with_worker_names i (names_text fields2))).
  { by rewrite Hw1, Hw2, Hcore. }
  split; [done|]. split; [done|]. split; [by apply app_worker_names|].
  split; [intros varValue; by rewrite (decode_worker_names i _ _ varValue Hw)|].
  split.
  - intros f Hf Hc. rewrite Forall_forall in Hwf1.
    rewrite (strip_field_text f (Hwf1 f Hf)). by apply PyStrFacts.strip_all_space.
  - intros Hle Hlen. split; [done|].
    by rewrite Hw1, !length_fmap.
Qed.

(** ** Checking an assignment by computation *)

Lemma holdsb_holds a c : holdsb a c = true -> holds a c.
Proof.
  unfold holdsb, holds. destruct (csense c); intros Hb.
  - by apply Qle_bool_iff.
  - by apply Qeq_bool_iff.
  - by apply Qle_bool_iff.
Qed.

Lemma indicator_in_domain ones p v :
  (0 <= p)%Q -> in_domain (declared v) (indicator ones p v).
Proof.
  intros Hp. destruct v as [|w d k]; unfold in_domain; simpl.
  - done.
  - split; [done|]. split; [done|]. case_bool_decide; (by left) || (by right).
Qed.

Lemma feasible_indicator m ones p :
  (0 <= p)%Q ->
  forallb (fun nc => holdsb (indicator ones p) nc.2) (constraints m) = true ->
  feasible m (indicator ones p).
Proof.
  intros Hp Hall. split.
  - intros v _. by apply indicator_in_domain.
  - apply Forall_forall. intros nc Hnc. apply holdsb_holds.
    rewrite forallb_forall in Hall. apply Hall. by apply list_elem_of_In.
Qed.

(** ** The concrete runs *)

Module ExampleFacts.
Import Examples.

Lemma pair_validated : validated pair.
Proof. by vm_compute. Qed.

Lemma pair_feasible : feasible (@model iso_calendar pair) pair_assignment.
Proof. apply feasible_indicator; by vm_compute. Qed.

Lemma pair_optimal : optimal (@model iso_calendar pair) pair_assignment.
Proof. apply optimal_zero_penalty; [apply pair_feasible|reflexivity]. Qed.

Lemma pair_solver_answer :
  solver_answer (@model iso_calendar pair)
                (@solve pair_solver (@model iso_calendar pair)).
Proof.
  split; [|done]. intros _. exists pair_assignment.
  split; [apply pair_optimal|done].
Qed.

Lemma pair_dates_distinct :
  NoDup (@date_str iso_calendar pair <$> range (n_days pair)).
Proof. apply (bool_decide_unpack _). by vm_compute. Qed.

Lemma pair_quotas w :
  w ∈ workers pair -> 0 <= days_off_widget pair w <= n_days pair.
Proof. intros _. by vm_compute. Qed.

Lemma overbooked_validated : validated overbooked.
Proof. by vm_compute. Qed.

Lemma overbooked_worker : "A"%string ∈ workers overbooked.
Proof. vm_compute. elem_of_here. Qed.

Lemma overbooked_excess : n_days overbooked < days_off_widget overbooked "A".
Proof. by vm_compute. Qed.

Lemma failing_solver_answer :
  solver_answer (@model iso_calendar overbooked)
                (@solve failing_solver (@model iso_calendar overbooked)).
Proof.
  split; [done|]. intros [a Hfeas] _. exfalso.
  exact (@excess_quota_infeasible iso_calendar overbooked a "A"%string
           (proj1 overbooked_validated) overbooked_worker overbooked_excess
           Hfeas).
Qed.
End ExampleFacts.

Module RequiredTwo.
Import Examples.

Lemma pair_one_optimal :
  optimal (@model iso_calendar (with_required pair 1)) pair_assignment.
Proof. apply ExampleFacts.pair_optimal. Qed.

Lemma pair_two_feasible :
  feasible (@model iso_calendar (with_required pair 2)) pair_assignment_short.
Proof. apply feasible_indicator; by vm_compute. Qed.

(** with two workers required, a day on which A is off is one short *)
Lemma pair_two_short_on (a : LpVar -> Q) (day : Z) :
  feasible (@model iso_calendar (with_required pair 2)) a ->
  day ∈ range (n_days pair) ->
  (a (Xvar "A" (@date_str iso_calendar pair day) 0) == 1)%Q ->
  (1 <= a penalty)%Q.
Proof.
  intros Hfeas Hday Hoff.
  set (i := with_required pair 2) in *.
  assert (HA : "A"%string ∈ workers i) by (vm_compute; elem_of_here).
  assert (HB : "B"%string ∈ workers i) by (vm_compute; elem_of_here).
  pose proof (@feasible_one_shift iso_calendar i a Hfeas "A" day HA Hday) as HsA.
  pose proof (@feasible_one_shift iso_calendar i a Hfeas "B" day HB Hday) as HsB.
  pose proof (@feasible_coverage iso_calendar i a Hfeas 1 _ day
                (or_introl (conj eq_refl eq_refl)) Hday) as Hcov.
  change (workers i) with ["A"; "B"]%string in Hcov.
  change (n_workers_per_day i) with 2 in Hcov.
  rewrite !fmap_cons, !Qsum_cons in Hcov. change (Qsum (_ <$> [])) with 0%Q in Hcov.
  change (@date_str iso_calendar i day) with (@date_str iso_calendar pair day) in *.
  assert (Hbin : forall w k, w ∈ workers i -> k ∈ shift_types ->
            (0 <= a (Xvar w (@date_str iso_calendar pair day) k))%Q).
  { intros w k Hw Hk.
    destruct (@feasible_binary iso_calendar i a Hfeas w day k Hw Hday Hk)
      as [Hv|Hv];
      change (@date_str iso_calendar i day)
        with (@date_str iso_calendar pair day) in Hv; lra. }
  pose proof (Hbin "A"%string 1 HA ltac:(elem_of_here)).
  pose proof (Hbin "A"%string 2 HA ltac:(elem_of_here)).
  pose proof (Hbin "A"%string 3 HA ltac:(elem_of_here)).
  pose proof (Hbin "B"%string 0 HB ltac:(elem_of_here)).
  pose proof (Hbin "B"%string 1 HB ltac:(elem_of_here)).
  pose proof (Hbin "B"%string 2 HB ltac:(elem_of_here)).
  pose proof (Hbin "B"%string 3 HB ltac:(elem_of_here)).
  change (inject_Z 2) with 2%Q in Hcov. lra.
Qed.

Lemma pair_two_lower_bound (a : LpVar -> Q) :
  feasible (@model iso_calendar (with_required pair 2)) a ->
  (1 <= a penalty)%Q.
Proof.
  intros Hfeas.
  set (i := with_required pair 2) in *.
  assert (HA : "A"%string ∈ workers i) by (vm_compute; elem_of_here).
  assert (H0 : 0 ∈ range (n_days i)) by (vm_compute; elem_of_here).
  assert (H1 : 1 ∈ range (n_days i)) by (vm_compute; elem_of_here).
  pose proof (@feasible_days_off iso_calendar i a Hfeas "A" HA) as Hq.
  rewrite (days_off_dict_lookup i "A" HA) in Hq.
  change (range (n_days i)) with [0; 1] in Hq.
  change (days_off_widget i "A") with 1 in Hq.
  rewrite !fmap_cons, !Qsum_cons in Hq. change (Qsum (_ <$> [])) with 0%Q in Hq.
  change (inject_Z 1) with 1%Q in Hq.
  destruct (@feasible_binary iso_calendar i a Hfeas "A" 0 0 HA H0
              ltac:(elem_of_here)) as [Hz|Ho].
  - apply (pair_two_short_on a 1 Hfeas H1).
    change (@date_str iso_calendar pair 1) with (@date_str iso_calendar i 1).
    lra.
  - by apply (pair_two_short_on a 0 Hfeas H0).
Qed.

Lemma pair_two_optimal :
  optimal (@model iso_calendar (with_required pair 2)) pair_assignment_short.
Proof.
  split; [apply pair_two_feasible|]. intros a Hfeas.
  rewrite !merit_model. pose proof (pair_two_lower_bound a Hfeas).
  change (pair_assignment_short penalty) with 1%Q. lra.
Qed.
End RequiredTwo.

(** * The properties on concrete runs *)

(** Two workers, two days, one day off each: the solved run shows a table
    whose cell for A on the first day holds one of the four labels. *)
Lemma exactly_one_shift_witness :
  validated Examples.pair
  /\ solver_answer (@model iso_calendar Examples.pair)
       (@solve Examples.pair_solver (@model iso_calendar Examples.pair))
  /\ exists df,
       st_write df ∈ @app iso_calendar Examples.pair_solver Examples.pair
       /\ exists label,
            cell_of df "A" (@date_str iso_calendar Examples.pair 0) = Some label
            /\ label ∈ ["Off"; "First Half"; "Second Half"; "Full Day"]%string.
Proof.
  split; [exact ExampleFacts.pair_validated|].
  split; [exact ExampleFacts.pair_solver_answer|].
  destruct (@exactly_one_shift iso_calendar Examples.pair_solver Examples.pair
              ExampleFacts.pair_validated ExampleFacts.pair_solver_answer)
    as (_ & _ & Hcells).
  destruct (Hcells eq_refl) as (df & Hin & Hdf & _). exists df. split; [exact Hin|].
  destruct (Hdf "A"%string 0) as (k & label & _ & _ & Hc & Hl & _).
  - vm_compute. elem_of_here.
  - vm_compute. elem_of_here.
  - exists label. split; [exact Hc|exact Hl].
Defined.

(** In the same run B has exactly one Off cell, as requested. *)
Lemma days_off_exact_witness :
  validated Examples.pair
  /\ solver_answer (@model iso_calendar Examples.pair)
       (@solve Examples.pair_solver (@model iso_calendar Examples.pair))
  /\ (@solve Examples.pair_solver (@model iso_calendar Examples.pair)).1 = 1
  /\ exists df,
       st_write df ∈ @app iso_calendar Examples.pair_solver Examples.pair
       /\ Z.of_nat (length (filter
                              (fun day =>
                                 cell_of df "B" (@date_str iso_calendar Examples.pair day)
                                 = Some "Off"%string)
                              (range (n_days Examples.pair))))
          = 1.
Proof.
  split; [exact ExampleFacts.pair_validated|].
  split; [exact ExampleFacts.pair_solver_answer|].
  split; [reflexivity|].
  destruct (@days_off_exact iso_calendar Examples.pair_solver Examples.pair
              ExampleFacts.pair_validated ExampleFacts.pair_solver_answer eq_refl)
    as (df & Hin & Hdf).
  exists df. split; [exact Hin|].
  destruct (Hdf "B"%string) as [Hcount _].
  - vm_compute. elem_of_here.
  - exact Hcount.
Defined.

(** The same request has quotas within the range: it is feasible and
    solved with status 1. *)
Lemma quotas_in_range_solved_witness :
  validated Examples.pair
  /\ NoDup (@date_str iso_calendar Examples.pair <$> range (n_days Examples.pair))
  /\ (forall w, w ∈ workers Examples.pair ->
        0 <= days_off_widget Examples.pair w <= n_days Examples.pair)
  /\ solver_answer (@model iso_calendar Examples.pair)
       (@solve Examples.pair_solver (@model iso_calendar Examples.pair))
  /\ feasible (@model iso_calendar Examples.pair)
              (@first_days_off iso_calendar Examples.pair)
  /\ (@solve Examples.pair_solver (@model iso_calendar Examples.pair)).1 = 1.
Proof.
  split; [exact ExampleFacts.pair_validated|].
  split; [exact ExampleFacts.pair_dates_distinct|].
  split; [exact ExampleFacts.pair_quotas|].
  split; [exact ExampleFacts.pair_solver_answer|].
  destruct (@quotas_in_range_solved iso_calendar Examples.pair_solver Examples.pair
              ExampleFacts.pair_validated ExampleFacts.pair_dates_distinct
              ExampleFacts.pair_quotas ExampleFacts.pair_solver_answer)
    as (Hfeas & Hst & _).
  split; [exact Hfeas|exact Hst].
Defined.

(** Five workers, ten days, eleven days off asked by A: the run ends
    with the error message. *)
Lemma excess_days_off_fails_witness :
  validated Examples.overbooked
  /\ solver_answer (@model iso_calendar Examples.overbooked)
       (@solve Examples.failing_solver (@model iso_calendar Examples.overbooked))
  /\ "A"%string ∈ workers Examples.overbooked
  /\ n_days Examples.overbooked < days_off_widget Examples.overbooked "A"
  /\ @app iso_calendar Examples.failing_solver Examples.overbooked
     = [model_solve (@model iso_calendar Examples.overbooked);
        st_error "No solution found."].
Proof.
  split; [exact ExampleFacts.overbooked_validated|].
  split; [exact ExampleFacts.failing_solver_answer|].
  split; [exact ExampleFacts.overbooked_worker|].
  split; [exact ExampleFacts.overbooked_excess|].
  exact (proj2 (proj2 (proj2
           (@excess_days_off_fails iso_calendar Examples.failing_solver
              Examples.overbooked "A"%string
              ExampleFacts.overbooked_validated ExampleFacts.failing_solver_answer
              ExampleFacts.overbooked_worker ExampleFacts.overbooked_excess)))).
Defined.

(** One required worker is met without penalty; two required workers
    cost a penalty of 1, since each worker is off on one of the two days. *)
Lemma penalty_monotone_witness :
  1 <= 2
  /\ optimal (@model iso_calendar (with_required Examples.pair 1))
             Examples.pair_assignment
  /\ optimal (@model iso_calendar (with_required Examples.pair 2))
             Examples.pair_assignment_short
  /\ (Examples.pair_assignment penalty
      <= Examples.pair_assignment_short penalty)%Q.
Proof.
  assert (Hle : 1 <= 2) by lia.
  split; [exact Hle|].
  split; [exact RequiredTwo.pair_one_optimal|].
  split; [exact RequiredTwo.pair_two_optimal|].
  exact (@penalty_monotone iso_calendar Examples.pair 1 2
           Examples.pair_assignment Examples.pair_assignment_short Hle
           RequiredTwo.pair_one_optimal RequiredTwo.pair_two_optimal).
Defined.

(** The cell of the one-worker, one-day request under values with two
    kinds selected. *)
Lemma decoder_last_truthy_witness :
  "A"%string ∈ workers Examples.solo
  /\ 0 ∈ range (n_days Examples.solo)
  /\ exists label,
       cell_of (@decode iso_calendar Examples.solo Examples.tie_values)
               "A" (@date_str iso_calendar Examples.solo 0)
       = Some label
       /\ (label = EmptyString
           \/ exists k, k ∈ shift_types /\ od_get k shift_mapping = Some label).
Proof.
  assert (Hw : "A"%string ∈ workers Examples.solo) by (vm_compute; elem_of_here).
  assert (Hd : 0 ∈ range (n_days Examples.solo)) by (vm_compute; elem_of_here).
  split; [exact Hw|]. split; [exact Hd|].
  destruct (@decoder_last_truthy iso_calendar Examples.solo Examples.tie_values
              "A"%string 0 Hw Hd) as (label & Hc & Hor).
  exists label. split; [exact Hc|].
  destruct Hor as [[_ Hblank]|(k & Hk & _ & _ & Hl)].
  - left. exact Hblank.
  - right. exists k. split; [exact Hk|exact Hl].
Defined.

(** One solver call in the solved run, and the error message alone in the
    run that is not solved. *)
Lemma solve_outcome_witness :
  validated Examples.pair
  /\ filter is_model_solve (@app iso_calendar Examples.pair_solver Examples.pair)
     = [model_solve (@model iso_calendar Examples.pair)]
  /\ validated Examples.overbooked
  /\ @app iso_calendar Examples.failing_solver Examples.overbooked
     = [model_solve (@model iso_calendar Examples.overbooked);
        st_error "No solution found."].
Proof.
  split; [exact ExampleFacts.pair_validated|].
  split.
  - exact (proj2 (proj2 (@solve_outcome iso_calendar Examples.pair_solver
                           Examples.pair ExampleFacts.pair_validated))).
  - split; [exact ExampleFacts.overbooked_validated|].
    destruct (@solve_outcome iso_calendar Examples.failing_solver
                Examples.overbooked ExampleFacts.overbooked_validated)
      as (Hfail & _ & _).
    apply Hfail. discriminate.
Defined.

(** A range that runs backwards, and three names for two workers. *)
Lemma invalid_input_halts_witness :
  (end_date Examples.backwards < start_date Examples.backwards
   \/ Z.of_nat (length (workers Examples.backwards)) ≠ n_workers Examples.backwards)
  /\ @app iso_calendar Examples.failing_solver Examples.backwards
     = [st_warning "The end date should be after the start date."; st_stop]
  /\ (end_date Examples.miscounted < start_date Examples.miscounted
      \/ Z.of_nat (length (workers Examples.miscounted))
         ≠ n_workers Examples.miscounted)
  /\ @app iso_calendar Examples.pair_solver Examples.miscounted
     = [st_warning "The number of worker names should match the number of workers.";
        st_stop].
Proof.
  assert (Hb : end_date Examples.backwards < start_date Examples.backwards)
    by (vm_compute; reflexivity).
  assert (Hm : Z.of_nat (length (workers Examples.miscounted))
               ≠ n_workers Examples.miscounted)
    by (vm_compute; discriminate).
  split; [left; exact Hb|]. split.
  - destruct (@invalid_input_halts iso_calendar Examples.failing_solver
                Examples.backwards (or_introl Hb)) as (_ & Hdate & _).
    exact (Hdate Hb).
  - split; [right; exact Hm|].
    destruct (@invalid_input_halts iso_calendar Examples.pair_solver
                Examples.miscounted (or_intror Hm)) as (_ & _ & Hcount & _).
    apply Hcount. vm_compute. discriminate.
Defined.

(** The texts [ A , B] and [A,B] name the same two workers. *)
Lemma worker_names_stripped_witness :
  Examples.pair_fields ≠ []
  /\ Forall well_formed_field Examples.pair_fields
  /\ Forall well_formed_field Examples.pair_fields_plain
  /\ core <$> Examples.pair_fields = core <$> Examples.pair_fields_plain
  /\ names_text Examples.pair_fields = " A , B"%string
  /\ names_text Examples.pair_fields_plain = "A,B"%string
  /\ workers (with_worker_names Examples.pair " A , B") = ["A"; "B"]%string
  /\ @app iso_calendar Examples.pair_solver
          (with_worker_names Examples.pair " A , B")
     = @app iso_calendar Examples.pair_solver
            (with_worker_names Examples.pair "A,B").
Proof.
  assert (Hne : Examples.pair_fields ≠ []) by discriminate.
  assert (Hwf1 : Forall well_formed_field Examples.pair_fields)
    by (repeat constructor).
  assert (Hwf2 : Forall well_formed_field Examples.pair_fields_plain)
    by (repeat constructor).
  assert (Hcore : core <$> Examples.pair_fields = core <$> Examples.pair_fields_plain)
    by reflexivity.
  split; [exact Hne|]. split; [exact Hwf1|]. split; [exact Hwf2|].
  split; [exact Hcore|]. split; [reflexivity|]. split; [reflexivity|].
  destruct (@worker_names_stripped iso_calendar Examples.pair_solver Examples.pair
              Examples.pair_fields Examples.pair_fields_plain Hne Hwf1 Hwf2 Hcore)
    as (Hw & _ & Happ & _).
  split; [exact Hw|exact Happ].
Defined.

(** * More of the script *)

(** ** The worker-names field, line 38 *)

Module SplitFacts.
Import PyStr.

Lemma split_nonempty sep s : split sep s ≠ [].
Proof.
  destruct s as [|c s]; simpl; [done|].
  destruct (Ascii.eqb c sep); [done|].
  by destruct (split sep s).
Qed.

Lemma join_cons_string sep c h t :
  join sep (String c h :: t) = String c (join sep (h :: t)).
Proof. by destruct t. Qed.

Lemma join_split sep s : join sep (split sep s) = s.
Proof.
  induction s as [|c s IH]; [done|].
  simpl. destruct (Ascii.eqb_spec c sep) as [->|Hne].
  - pose proof (split_nonempty sep s) as Hn.
    destruct (split sep s) as [|h t]; [done|].
    simpl in *. by rewrite IH.
  - pose proof (split_nonempty sep s) as Hn.
    destruct (split sep s) as [|h t]; [done|].
    by rewrite join_cons_string, IH.
Qed.

Lemma split_fields_no_sep sep s :
  Forall (fun f => contains sep f = false) (split sep s).
Proof.
  induction s as [|c s IH]; simpl; [by repeat constructor|].
  destruct (Ascii.eqb c sep) eqn:Hc.
  - by constructor.
  - pose proof (split_nonempty sep s) as Hn.
    destruct (split sep s) as [|h t]; [done|].
    inversion IH as [|? ? Hh Ht]; subst.
    constructor; [|done]. simpl. by rewrite Hc, Hh.
Qed.

Lemma length_split sep s : length (split sep s) = S (str_count sep s).
Proof.
  induction s as [|c s IH]; [done|].
  simpl. destruct (Ascii.eqb c sep).
  - simpl. by rewrite IH.
  - pose proof (split_nonempty sep s) as Hn.
    destruct (split sep s) as [|h t]; [done|].
    simpl in *. lia.
Qed.

Lemma lstrip_starts s : starts_space (lstrip s) = false.
Proof.
  induction s as [|c s IH]; [done|].
  simpl. destruct (isspace c) eqn:Hc; [done|]. simpl. by rewrite Hc.
Qed.

Lemma lstrip_fixed s : starts_space s = false -> lstrip s = s.
Proof. destruct s as [|c s]; [done|]. simpl. by intros ->. Qed.

Lemma rstrip_starts s : starts_space s = false -> starts_space (rstrip s) = false.
Proof.
  destruct s as [|c s]; [done|]. simpl. intros Hc.
  destruct (rstrip s); simpl; by rewrite Hc.
Qed.

Lemma rstrip_ends s : ends_space (rstrip s) = false.
Proof.
  induction s as [|c s IH]; [done|].
  simpl. destruct (rstrip s) as [|d r] eqn:Hr.
  - destruct (isspace c) eqn:Hc; [done|]. simpl. by rewrite Hc.
  - done.
Qed.

Lemma rstrip_fixed s : ends_space s = false -> rstrip s = s.
Proof.
  induction s as [|c s IH]; [done|].
  intros He. simpl. destruct s as [|d s].
  - simpl in *. by rewrite He.
  - rewrite IH by done. done.
Qed.

Lemma contains_lstrip c s : contains c s = false -> contains c (lstrip s) = false.
Proof.
  induction s as [|d s IH]; [done|].
  simpl. intros [Hd Hs]%orb_false_iff.
  destruct (isspace d); [by apply IH|]. simpl. by rewrite Hd, Hs.
Qed.

Lemma contains_rstrip c s : contains c s = false -> contains c (rstrip s) = false.
Proof.
  induction s as [|d s IH]; [done|].
  simpl. intros [Hd Hs]%orb_false_iff. specialize (IH Hs).
  destruct (rstrip s) as [|e r].
  - destruct (isspace d); [done|]. simpl. by rewrite Hd.
  - simpl in *. by rewrite Hd, IH.
Qed.

Lemma strip_starts s : starts_space (strip s) = false.
Proof. apply rstrip_starts, lstrip_starts. Qed.

Lemma strip_ends s : ends_space (strip s) = false.
Proof. apply rstrip_ends. Qed.

Lemma strip_fixed s :
  starts_space s = false -> ends_space s = false -> strip s = s.
Proof. intros Hs He. unfold strip. by rewrite lstrip_fixed, rstrip_fixed. Qed.

End SplitFacts.

(** X1: splitting the worker-names text at commas loses nothing: the
    fields joined by commas give the text back, no field holds a comma,
    and there is always at least one field. *)
Theorem split_join_round_trip (i : Inputs) :
  PyStr.join "," (PyStr.split "," (worker_names i)) = worker_names i
  /\ Forall (fun f => PyStr.contains "," f = false)
            (PyStr.split "," (worker_names i))
  /\ workers i ≠ [].
Proof.
  split; [apply SplitFacts.join_split|].
  split; [apply SplitFacts.split_fields_no_sep|].
  unfold workers. pose proof (SplitFacts.split_nonempty "," (worker_names i)).
  by destruct (PyStr.split "," (worker_names i)).
Qed.

(** X2: the number of worker names is the number of commas of the text
    plus one (the empty text gives one empty name, a trailing comma one
    more name), so a run with the dates in order is stopped by the
    name-count warning exactly when commas + 1 differs from n_workers. *)
Theorem name_count_is_commas_plus_one `{Calendar} `{Solver} (i : Inputs) :
  length (workers i) = S (str_count "," (worker_names i))
  /\ (start_date i <= end_date i ->
      (app i = [st_warning "The number of worker names should match the number of workers.";
                st_stop]
       <-> Z.of_nat (S (str_count "," (worker_names i))) ≠ n_workers i)).
Proof.
  assert (Hlen : length (workers i) = S (str_count "," (worker_names i))).
  { unfold workers. by rewrite length_fmap, SplitFacts.length_split. }
  split; [done|]. intros Hdates. split.
  - intros Happ Heq.
    assert (Hv : validated i) by (split; [done|by rewrite Hlen]).
    rewrite (app_validated i Hv) in Happ. discriminate Happ.
  - intros Hne. apply app_name_count; [done|]. by rewrite Hlen.
Qed.

(** X3: every worker name the script works with is stripped: it neither
    starts nor ends with whitespace, stripping it again changes nothing,
    and it holds no comma. *)
Theorem workers_are_stripped (i : Inputs) (w : string) :
  w ∈ workers i ->
  starts_space w = false /\ ends_space w = false
  /\ PyStr.strip w = w /\ PyStr.contains "," w = false.
Proof.
  unfold workers. intros (f & -> & Hf)%list_elem_of_fmap.
  pose proof (SplitFacts.strip_starts f) as Hs.
  pose proof (SplitFacts.strip_ends f) as He.
  repeat split; [done|done|by apply SplitFacts.strip_fixed|].
  pose proof (SplitFacts.split_fields_no_sep "," (worker_names i)) as Hall.
  rewrite Forall_forall in Hall.
  unfold PyStr.strip.
  by apply SplitFacts.contains_rstrip, SplitFacts.contains_lstrip, Hall.
Qed.

(** ** The date range, lines 34, 56 and 68 *)

Lemma range_S n : 0 <= n -> range (n + 1) = range n ++ [n].
Proof.
  intros Hn. unfold range.
  replace (Z.to_nat (n + 1)) with (S (Z.to_nat n)) by lia.
  rewrite seq_S, fmap_app. simpl. do 2 f_equal. lia.
Qed.

(** X4: for dates in order the columns run from the start date to the end
    date, both included: there are end - start + 1 of them, the first is
    the start date, the last is the end date, and every date in between
    has its column. *)
Theorem date_range_inclusive `{Calendar} (i : Inputs) :
  start_date i <= end_date i ->
  Z.of_nat (length (date_str i <$> range (n_days i)))
  = end_date i - start_date i + 1
  /\ head (date_str i <$> range (n_days i)) = Some (strftime (start_date i))
  /\ last (date_str i <$> range (n_days i)) = Some (strftime (end_date i))
  /\ (forall d, start_date i <= d <= end_date i ->
        strftime d ∈ date_str i <$> range (n_days i))
  /\ (forall s, s ∈ date_str i <$> range (n_days i) ->
        exists d, start_date i <= d <= end_date i /\ s = strftime d).
Proof.
  intros Hle. unfold n_days.
  split; [rewrite length_fmap, length_range; lia|].
  rewrite (range_S (end_date i - start_date i)) by lia.
  split.
  { unfold range.
    destruct (Z.to_nat (end_date i - start_date i)) as [|m] eqn:Hm; simpl;
      unfold date_str; do 2 f_equal; lia. }
  split.
  { rewrite fmap_app. simpl. rewrite last_snoc. unfold date_str.
    do 2 f_equal. lia. }
  split.
  - intros d Hd. apply list_elem_of_fmap. exists (d - start_date i).
    split; [unfold date_str; f_equal; lia|].
    rewrite <- range_S by lia. apply range_spec. lia.
  - intros s (day & -> & Hday)%list_elem_of_fmap.
    rewrite <- range_S in Hday by lia. apply range_spec in Hday.
    exists (start_date i + day). split; [lia|done].
Qed.

(** ** The download link, lines 10-13 *)

Lemma string_app_nil (a : string) : EmptyString +:+ a = a.
Proof. reflexivity. Qed.

Lemma string_app_cons (c : ascii) (p a : string) :
  String c p +:+ a = String c (p +:+ a).
Proof. reflexivity. Qed.

Lemma string_length_app (a b : string) :
  String.length (a +:+ b) = (String.length a + String.length b)%nat.
Proof.
  induction a as [|c a IH]; [done|].
  rewrite string_app_cons. simpl. by rewrite IH.
Qed.

Lemma substring_whole (m s : string) :
  substring 0 (String.length m) (m +:+ s) = m.
Proof.
  induction m as [|c m IH].
  - rewrite string_app_nil. by destruct s.
  - rewrite string_app_cons. simpl. by rewrite IH.
Qed.

Lemma substring_middle (p m s : string) :
  substring (String.length p) (String.length m) (p +:+ m +:+ s) = m.
Proof.
  induction p as [|c p IH]; [exact (substring_whole m s)|].
  rewrite string_app_cons. simpl. apply IH.
Qed.

Lemma string_app_inv_head (p a b : string) : p +:+ a = p +:+ b -> a = b.
Proof.
  induction p as [|c p IH]; [done|]. rewrite !string_app_cons.
  intros Heq. apply IH. congruence.
Qed.

Lemma string_app_inv_tail (a b s : string) : a +:+ s = b +:+ s -> a = b.
Proof.
  revert b. induction a as [|c a IH]; intros [|d b] Heq;
    rewrite ?string_app_cons, ?string_app_nil in Heq.
  - done.
  - exfalso. apply (f_equal String.length) in Heq. simpl in Heq.
    rewrite string_length_app in Heq. lia.
  - exfalso. apply (f_equal String.length) in Heq. simpl in Heq.
    rewrite string_length_app in Heq. lia.
  - injection Heq as -> Heq. f_equal. by apply IH.
Qed.

Lemma str_count_app (c : ascii) (a b : string) :
  str_count c (a +:+ b) = (str_count c a + str_count c b)%nat.
Proof.
  induction a as [|d a IH]; [done|].
  rewrite string_app_cons. simpl. rewrite IH. lia.
Qed.

(** X5: the link of line 13 carries the encoded table unchanged between
    its two literal parts: the text from position 30 to 45 characters
    before the end is the base64 text, two tables with the same link have
    the same encoded text, and the link holds four double quotes beside
    those of the encoded text (none, for base64 text), so the table cannot
    close an attribute of the link. *)
Theorem csv_link_round_trip `{Export} (df df' : DataFrame) :
  payload_of_link (to_csv_link df) = b64encode (to_csv df)
  /\ String.length (to_csv_link df)
     = (75 + String.length (b64encode (to_csv df)))%nat
  /\ str_count dquote (to_csv_link df)
     = (4 + str_count dquote (b64encode (to_csv df)))%nat
  /\ (to_csv_link df = to_csv_link df' ->
      b64encode (to_csv df) = b64encode (to_csv df')).
Proof.
  assert (Hlen : String.length (to_csv_link df)
                 = (75 + String.length (b64encode (to_csv df)))%nat).
  { unfold to_csv_link. rewrite !string_length_app.
    change (String.length link_prefix) with 30%nat.
    change (String.length link_suffix) with 45%nat. lia. }
  split.
  { unfold payload_of_link. rewrite Hlen.
    replace (75 + String.length (b64encode (to_csv df)) - 30 - 45)%nat
      with (String.length (b64encode (to_csv df))) by lia.
    unfold to_csv_link.
    change 30%nat with (String.length link_prefix).
    apply substring_middle. }
  split; [done|]. split.
  { unfold to_csv_link. rewrite !str_count_app.
    change (str_count dquote link_prefix) with 1%nat.
    change (str_count dquote link_suffix) with 3%nat. lia. }
  unfold to_csv_link. intros Heq.
  apply string_app_inv_head in Heq. by apply string_app_inv_tail in Heq.
Qed.

(** ** The contact form, lines 100-133 *)

Section ContactFacts.
Context `{Smtp}.

Lemma try_calls_success calls :
  of_call (st_success "Message sent successfully!") ∈ try_calls calls
  <-> forall c, c ∈ calls -> raises c = None.
Proof.
  induction calls as [|c calls IH]; simpl.
  - split; [by intros _ c ?%elem_of_nil|]. intros _. apply list_elem_of_here.
  - split.
    + intros Hin c' Hc'. apply elem_of_cons in Hin as [Heq|Hin]; [done|].
      destruct (raises c) as [e|] eqn:Hc.
      { apply list_elem_of_singleton in Hin. discriminate Hin. }
      apply elem_of_cons in Hc' as [->|Hc']; [done|]. by apply IH.
    + intros Hall. apply list_elem_of_further.
      rewrite (Hall c) by apply list_elem_of_here.
      apply IH. intros c' Hc'. by apply Hall, list_elem_of_further.
Qed.

Lemma try_calls_raise pre c post e :
  (forall c', c' ∈ pre -> raises c' = None) ->
  raises c = Some e ->
  try_calls (pre ++ c :: post)
  = (smtp <$> pre ++ [c]) ++ [of_call (st_error ("An error occurred: " +:+ e))].
Proof.
  intros Hpre Hc. induction pre as [|c' pre IH]; simpl.
  - by rewrite Hc.
  - rewrite (Hpre c') by apply list_elem_of_here. f_equal.
    apply IH. intros c'' Hc''. by apply Hpre, list_elem_of_further.
Qed.

Lemma try_calls_all calls :
  (forall c, c ∈ calls -> raises c = None) ->
  try_calls calls
  = (smtp <$> calls) ++ [of_call (st_success "Message sent successfully!")].
Proof.
  induction calls as [|c calls IH]; intros Hall; simpl; [done|].
  rewrite (Hall c) by apply list_elem_of_here. f_equal.
  apply IH. intros c' Hc'. by apply Hall, list_elem_of_further.
Qed.

Lemma try_calls_one_outcome calls :
  length (filter is_outcome (try_calls calls)) = 1%nat.
Proof.
  induction calls as [|c calls IH]; simpl; [done|].
  rewrite filter_cons_False by (by intros ?).
  by destruct (raises c).
Qed.

Lemma try_calls_no_header calls : filter is_header (try_calls calls) = [].
Proof.
  induction calls as [|c calls IH]; simpl; [done|].
  rewrite filter_cons_False by (by intros ?).
  by destruct (raises c).
Qed.

Lemma try_calls_prefix calls :
  exists n, (n <= length calls)%nat
    /\ filter is_smtp (try_calls calls) = smtp <$> take n calls
    /\ forall c, c ∈ take (pred n) calls -> raises c = None.
Proof.
  induction calls as [|c calls (n & Hn & IH & Hnone)]; simpl.
  - exists 0%nat. split; [done|]. split; [done|]. by intros c ?%elem_of_nil.
  - rewrite filter_cons_True by done.
    destruct (raises c) as [e|] eqn:Hc.
    + exists 1%nat. split; [lia|]. split; [done|].
      by intros c' ?%elem_of_nil.
    + exists (S n). split; [lia|]. split; [simpl; by rewrite IH|].
      intros c' Hc'. destruct n as [|n]; simpl in Hc'.
      { by apply elem_of_nil in Hc'. }
      apply elem_of_cons in Hc' as [->|Hc']; [done|]. by apply Hnone.
Qed.
End ContactFacts.

(** X6: the contact form. Without a press of 'Submit' nothing is sent and
    no outcome is shown. After a press the five mail calls run in order up
    to the first one that raises; exactly one outcome is shown;
    'Message sent successfully!' is shown exactly when none of the five
    raised; an exception of a call is reported as 'An error occurred: ...'
    and no later call runs (after a failed login no mail is handed over,
    and the connection is not closed by quit). *)
Theorem contact_form_outcome `{Smtp} (f : ContactInputs) :
  (submit f = false ->
     filter is_smtp (contact f) = [] /\ filter is_outcome (contact f) = [])
  /\ (submit f = true ->
        length (filter is_outcome (contact f)) = 1%nat
        /\ exists n, (1 <= n <= 5)%nat
             /\ filter is_smtp (contact f) = smtp <$> take n (smtp_calls f)
             /\ forall c, c ∈ take (pred n) (smtp_calls f) -> raises c = None)
  /\ (of_call (st_success "Message sent successfully!") ∈ contact f
      <-> submit f = true /\ forall c, c ∈ smtp_calls f -> raises c = None)
  /\ (forall pre c post e,
        submit f = true ->
        smtp_calls f = pre ++ c :: post ->
        (forall c', c' ∈ pre -> raises c' = None) ->
        raises c = Some e ->
        contact f
        = [st_header "Contact Us";
           st_text "If you have any questions or feedback, please feel free to contact us using the form below:"]
          ++ (smtp <$> pre ++ [c])
          ++ [of_call (st_error ("An error occurred: " +:+ e))]).
Proof.
  unfold contact. split; [by intros ->|]. split.
  { intros ->. split.
    - rewrite filter_app. rewrite length_app, try_calls_one_outcome. done.
    - destruct (try_calls_prefix (smtp_calls f)) as (n & Hn & Hpre & Hnone).
      exists n. split; [|split; [|done]].
      + split; [|exact Hn]. destruct n as [|n]; [|lia].
        simpl in Hpre. rewrite filter_cons_True in Hpre by done. discriminate Hpre.
      + rewrite filter_app. by rewrite <- Hpre. }
  split.
  { destruct (submit f).
    - rewrite <- try_calls_success. split.
      + intros Hin. split; [done|].
        apply elem_of_app in Hin as [Hin|Hin]; [|done].
        repeat (apply elem_of_cons in Hin as [Heq|Hin]; [discriminate Heq|]).
        by apply elem_of_nil in Hin.
      + intros [_ Hin]. apply elem_of_app. by right.
    - split; [|by intros [? _]]. intros Hin.
      apply elem_of_app in Hin as [Hin|Hin].
      + repeat (apply elem_of_cons in Hin as [Heq|Hin]; [discriminate Heq|]).
        by apply elem_of_nil in Hin.
      + by apply elem_of_nil in Hin. }
  intros pre c post e -> Hcalls Hpre Hc.
  by rewrite Hcalls, (try_calls_raise pre c post e Hpre Hc).
Qed.

(** the text of line 117 splits at its first line breaks *)
Lemma string_cut_unique (c : ascii) (a a' r r' : string) :
  PyStr.contains c a = false -> PyStr.contains c a' = false ->
  a +:+ String c r = a' +:+ String c r' -> a = a' /\ r = r'.
Proof.
  revert a'. induction a as [|d a IH]; intros [|d' a'] Ha Ha' Heq;
    rewrite ?string_app_cons, ?string_app_nil in Heq; simpl in Ha, Ha'.
  - by injection Heq as ->.
  - injection Heq as <- _. apply orb_false_iff in Ha' as [Hd _].
    by rewrite Ascii.eqb_refl in Hd.
  - injection Heq as -> _. apply orb_false_iff in Ha as [Hd _].
    by rewrite Ascii.eqb_refl in Hd.
  - injection Heq as -> Heq.
    apply orb_false_iff in Ha as [_ Ha]. apply orb_false_iff in Ha' as [_ Ha'].
    destruct (IH a' Ha Ha' Heq) as [-> ->]. done.
Qed.

(** X7: the mail text of line 117 determines the three fields of the
    form: for names and addresses without a line break (a one-line text
    input holds none), two submissions with the same mail text have the
    same name, address and message. *)
Theorem message_text_injective (f g : ContactInputs) :
  PyStr.contains newline (contact_name f) = false ->
  PyStr.contains newline (contact_email f) = false ->
  PyStr.contains newline (contact_name g) = false ->
  PyStr.contains newline (contact_email g) = false ->
  message_text f = message_text g ->
  contact_name f = contact_name g
  /\ contact_email f = contact_email g
  /\ contact_message f = contact_message g.
Proof.
  intros Hnf Hef Hng Heg Heq. unfold message_text in Heq.
  apply (string_app_inv_head "Name: ") in Heq.
  apply string_cut_unique in Heq as [Hname Heq]; [|done|done].
  apply (string_app_inv_head "Email: ") in Heq.
  apply string_cut_unique in Heq as [Hemail Heq]; [|done|done].
  apply (string_app_inv_head "Message: ") in Heq.
  done.
Qed.

(** ** The whole page, lines 15-144 *)

Lemma filter_of_call (P : PageCall -> bool) (l : list Call) :
  (forall c, P (of_call c) = false) -> filter P (of_call <$> l) = [].
Proof.
  intros HP. induction l as [|c l IH]; simpl; [done|].
  rewrite filter_cons_False; [done|]. rewrite HP. by intros ?.
Qed.

Lemma stopped_validated `{Calendar} `{Solver} (i : Inputs) :
  validated i -> stopped (app i) = false.
Proof.
  intros Hv. rewrite (app_validated i Hv). unfold stopped. simpl.
  by destruct ((solve (model i)).1 =? 1).
Qed.

(** X8: [st.stop()] ends the whole page, not only the scheduler: with the
    dates out of order or a wrong number of names the run shows the title,
    the introduction and the warning, and then neither the contact form
    nor the privacy policy, and sends no mail even when 'Submit' was
    pressed. A run that passes the checks goes on to the contact form and
    ends with the privacy policy, whatever the solver answered. *)
Theorem stop_ends_the_page `{Calendar} `{Solver} `{Smtp}
    (i : Inputs) (f : ContactInputs) :
  (end_date i < start_date i \/ Z.of_nat (length (workers i)) ≠ n_workers i ->
     page i f = [st_title title_text; st_text intro_text] ++ (of_call <$> app i)
     /\ last (page i f) = Some (of_call st_stop)
     /\ filter is_header (page i f) = []
     /\ filter is_smtp (page i f) = [])
  /\ (validated i ->
        page i f = [st_title title_text; st_text intro_text]
                   ++ (of_call <$> app i) ++ contact f ++ privacy
        /\ filter is_header (page i f)
           = [st_header "Contact Us"; st_header "Privacy Policy"]
        /\ filter is_smtp (page i f) = filter is_smtp (contact f)
        /\ last (page i f) = last (st_text <$> privacy_texts)).
Proof.
  split.
  - intros Hbad.
    assert (Happ : exists body, app i = [st_warning body; st_stop]).
    { destruct (Z.lt_ge_cases (end_date i) (start_date i)) as [Hlt|Hle].
      - rewrite (app_end_before_start i Hlt). eauto.
      - destruct Hbad as [Hlt|Hne]; [lia|].
        rewrite (app_name_count i Hle Hne). eauto. }
    destruct Happ as [body Happ]. unfold page. rewrite Happ. done.
  - intros Hv. unfold page. rewrite (stopped_validated i Hv).
    split; [done|].
    assert (Hh : filter is_header (contact f) = [st_header "Contact Us"]).
    { unfold contact. rewrite filter_app.
      destruct (submit f); [rewrite try_calls_no_header|]; done. }
    split; [|split].
    + rewrite !filter_app, filter_of_call, Hh by done. done.
    + rewrite !filter_app, filter_of_call by done.
      assert (filter is_smtp privacy = []) as -> by (by vm_compute).
      by rewrite app_nil_r.
    + rewrite !last_app.
      change (last privacy) with (last (st_text <$> privacy_texts)).
      by vm_compute.
Qed.

(** ** The penalty and the staffing, lines 50, 65, 72 and 73 *)

Lemma Qmax2_ub_l x y : (x <= Qmax2 x y)%Q.
Proof.
  unfold Qmax2. destruct (Qle_bool x y) eqn:E.
  - by apply Qle_bool_iff.
  - apply Qle_refl.
Qed.

Lemma Qmax2_ub_r x y : (y <= Qmax2 x y)%Q.
Proof.
  unfold Qmax2. destruct (Qle_bool x y) eqn:E.
  - apply Qle_refl.
  - apply Qlt_le_weak, Qnot_le_lt. intros Hle.
    apply Qle_bool_iff in Hle. congruence.
Qed.

Lemma Qmax2_lub x y z : (x <= z)%Q -> (y <= z)%Q -> (Qmax2 x y <= z)%Q.
Proof. unfold Qmax2. by destruct (Qle_bool x y). Qed.

Lemma fold_Qmax2_base (l : list Q) : (0 <= fold_right Qmax2 0 l)%Q.
Proof.
  induction l as [|q l IH]; simpl; [apply Qle_refl|].
  eapply Qle_trans; [exact IH|apply Qmax2_ub_r].
Qed.

Lemma fold_Qmax2_ub (l : list Q) q : q ∈ l -> (q <= fold_right Qmax2 0 l)%Q.
Proof.
  induction l as [|q' l IH]; [by intros ?%elem_of_nil|].
  intros [->|Hq]%elem_of_cons; simpl.
  - apply Qmax2_ub_l.
  - eapply Qle_trans; [by apply IH|apply Qmax2_ub_r].
Qed.

Lemma fold_Qmax2_lub (l : list Q) z :
  (0 <= z)%Q -> (forall q, q ∈ l -> (q <= z)%Q) ->
  (fold_right Qmax2 0 l <= z)%Q.
Proof.
  intros Hz. induction l as [|q l IH]; intros Hall; simpl; [done|].
  apply Qmax2_lub.
  - apply Hall, list_elem_of_here.
  - apply IH. intros q' Hq'. by apply Hall, list_elem_of_further.
Qed.

Lemma Qmax2_cases x y : Qmax2 x y = x \/ Qmax2 x y = y.
Proof. unfold Qmax2. destruct (Qle_bool x y); auto. Qed.

Lemma fold_Qmax2_attained (l : list Q) :
  fold_right Qmax2 0%Q l = 0%Q \/ exists q, q ∈ l /\ fold_right Qmax2 0%Q l = q.
Proof.
  induction l as [|q l IH]; simpl; [by left|].
  destruct (Qmax2_cases q (fold_right Qmax2 0%Q l)) as [-> | ->].
  - right. exists q. split; [apply list_elem_of_here|done].
  - destruct IH as [IH|(q' & Hq' & IH)]; [by left|right].
    exists q'. split; [by apply list_elem_of_further|done].
Qed.

Section Shortfall.
Context `{Calendar}.
Variable i : Inputs.

Lemma shortfall_le a day p :
  (shortfall i a day <= p)%Q
  <-> (inject_Z (n_workers_per_day i) - p <= staffing i a 1 day)%Q
      /\ (inject_Z (n_workers_per_day i) - p <= staffing i a 2 day)%Q.
Proof.
  unfold shortfall. split.
  - intros Hle.
    pose proof (Qmax2_ub_l (inject_Z (n_workers_per_day i) - staffing i a 1 day)
                           (inject_Z (n_workers_per_day i) - staffing i a 2 day)).
    pose proof (Qmax2_ub_r (inject_Z (n_workers_per_day i) - staffing i a 1 day)
                           (inject_Z (n_workers_per_day i) - staffing i a 2 day)).
    split; lra.
  - intros [H1 H2]. apply Qmax2_lub; lra.
Qed.

Lemma holds_coverage a label half day :
  holds a (coverage i label half (date_str i day)).2
  <-> (inject_Z (n_workers_per_day i) - a penalty <= staffing i a half day)%Q.
Proof.
  unfold holds. cbn [coverage snd csense lhs rhs].
  rewrite eval_lpSum_fmap, eval_lp_sub, eval_lp_const, eval_lp_var.
  assert (Heq : (Qsum ((fun w => eval a (lp_add
                    (lp_scale (lp_var (Xvar w (date_str i day) half)) (1 # 2))
                    (lp_var (Xvar w (date_str i day) 3)))) <$> workers i)
                 == staffing i a half day)%Q).
  { unfold staffing. apply Qsum_fmap_ext. intros w _.
    rewrite eval_lp_add, eval_lp_scale, !eval_lp_var. ring. }
  by rewrite Heq.
Qed.

Lemma feasible_shortfall a day :
  feasible (model i) a -> day ∈ range (n_days i) ->
  (shortfall i a day <= a penalty)%Q.
Proof.
  intros Hfeas Hday. apply shortfall_le.
  unfold staffing. split.
  - by apply (feasible_coverage i a Hfeas 1 "hard_full_and_first_"); [left|].
  - by apply (feasible_coverage i a Hfeas 2 "hard_full_and_second_"); [right|].
Qed.

Lemma worst_shortfall_le a p :
  (0 <= p)%Q ->
  (forall day, day ∈ range (n_days i) -> (shortfall i a day <= p)%Q) ->
  (worst_shortfall i a <= p)%Q.
Proof.
  intros Hp Hall. apply fold_Qmax2_lub; [done|].
  intros q (day & -> & Hday)%list_elem_of_fmap. by apply Hall.
Qed.

Lemma shortfall_le_worst a day :
  day ∈ range (n_days i) -> (shortfall i a day <= worst_shortfall i a)%Q.
Proof.
  intros Hday. apply fold_Qmax2_ub. by apply list_elem_of_fmap_2.
Qed.

(** changing the penalty of a feasible schedule to a value that still
    covers every shortfall keeps it feasible *)
Lemma feasible_with_penalty a p :
  feasible (model i) a -> (0 <= p)%Q ->
  (forall day, day ∈ range (n_days i) -> (shortfall i a day <= p)%Q) ->
  feasible (model i) (with_penalty a p).
Proof.
  intros Hfeas Hp Hcov. split.
  - intros v Hv. destruct v as [|w d k].
    + unfold in_domain. simpl. done.
    + destruct Hfeas as [Hdom _]. exact (Hdom _ Hv).
  - apply Forall_forall. intros nc Hnc.
    apply constraints_model_inv in Hnc
      as [(w & day & Hw & Hday & ->)|[(day & Hday & Hc)|(w & Hw & ->)]].
    + unfold holds, eval. cbn.
      pose proof (feasible_one_shift i a Hfeas w day Hw Hday). lra.
    + assert (Hc' : exists label half,
                 (half = 1 \/ half = 2)
                 /\ nc = coverage i label half (date_str i day)).
      { destruct Hc as [-> | ->]; eauto 6. }
      destruct Hc' as (label & half & Hhalf & ->).
      apply holds_coverage. cbn [with_penalty].
      destruct (proj1 (shortfall_le a day p) (Hcov day Hday)) as [H1 H2].
      destruct Hhalf as [-> | ->]; assumption.
    + unfold holds. cbn [days_off snd csense lhs rhs].
      rewrite eval_lpSum_fmap, eval_lp_const.
      rewrite <- (feasible_days_off i a Hfeas w Hw).
      apply Qsum_fmap_ext. intros day _. by rewrite eval_lp_var.
Qed.

(** an optimum pays the worst shortfall and no more *)
Lemma optimal_penalty_worst a :
  optimal (model i) a -> (a penalty == worst_shortfall i a)%Q.
Proof.
  intros [Hfeas Hopt].
  assert (Hge : (worst_shortfall i a <= a penalty)%Q).
  { apply worst_shortfall_le; [exact (feasible_penalty i a Hfeas)|].
    intros day Hday. by apply feasible_shortfall. }
  assert (Hfeas' : feasible (model i) (with_penalty a (worst_shortfall i a))).
  { apply feasible_with_penalty; [done|apply fold_Qmax2_base|].
    intros day Hday. by apply shortfall_le_worst. }
  pose proof (Hopt _ Hfeas') as Hle. rewrite !merit_model in Hle.
  cbn [with_penalty] in Hle. lra.
Qed.

(** a positive penalty of an optimum is attained on some day and half *)
Lemma optimal_tight a :
  optimal (model i) a -> (0 < a penalty)%Q ->
  exists day, day ∈ range (n_days i)
    /\ ((staffing i a 1 day == inject_Z (n_workers_per_day i) - a penalty)%Q
        \/ (staffing i a 2 day == inject_Z (n_workers_per_day i) - a penalty)%Q).
Proof.
  intros Hopt Hpos. pose proof (optimal_penalty_worst a Hopt) as Hp.
  unfold worst_shortfall in Hp.
  destruct (fold_Qmax2_attained (shortfall i a <$> range (n_days i)))
    as [H0|(q & Hq & Hmax)].
  { rewrite H0 in Hp. lra. }
  apply list_elem_of_fmap in Hq as (day & -> & Hday).
  exists day. split; [done|]. rewrite Hmax in Hp.
  unfold shortfall in Hp.
  destruct (Qmax2_cases (inject_Z (n_workers_per_day i) - staffing i a 1 day)
                        (inject_Z (n_workers_per_day i) - staffing i a 2 day))
    as [Hc|Hc]; rewrite Hc in Hp; [left|right]; lra.
Qed.
End Shortfall.

(** X9: at an optimum the penalty is the worst shortfall of the schedule:
    the largest amount, over all days and both halves, by which the
    staffing (half days counting one half) stays below the requirement,
    and 0 when no day falls short. For any feasible schedule the penalty
    is at least that; lowering it to that keeps the schedule feasible. *)
Theorem optimal_penalty_is_worst_shortfall `{Calendar} (i : Inputs)
    (a : LpVar -> Q) :
  optimal (model i) a ->
  (a penalty == worst_shortfall i a)%Q
  /\ (forall day, day ∈ range (n_days i) ->
        (inject_Z (n_workers_per_day i) - a penalty <= staffing i a 1 day)%Q
        /\ (inject_Z (n_workers_per_day i) - a penalty <= staffing i a 2 day)%Q)
  /\ feasible (model i) (with_penalty a (worst_shortfall i a)).
Proof.
  intros Hopt. pose proof Hopt as [Hfeas _].
  split; [by apply optimal_penalty_worst|]. split.
  - intros day Hday. apply shortfall_le. by apply feasible_shortfall.
  - apply feasible_with_penalty; [done|apply fold_Qmax2_base|].
    intros day Hday. by apply shortfall_le_worst.
Qed.

(** X10: with every quota within the range and distinct date strings,
    the penalty of an optimum lies between 0 and the requirement (0 for a
    requirement below 0): no optimum pays more than leaving every
    required place unfilled. *)
Theorem optimal_penalty_range `{Calendar} (i : Inputs) (a : LpVar -> Q) :
  NoDup (date_str i <$> range (n_days i)) ->
  (forall w, w ∈ workers i -> 0 <= days_off_widget i w <= n_days i) ->
  optimal (model i) a ->
  (0 <= a penalty)%Q
  /\ (a penalty <= inject_Z (Z.max 0 (n_workers_per_day i)))%Q.
Proof.
  intros Hnd Hq [Hfeas Hopt]. split; [exact (feasible_penalty i a Hfeas)|].
  pose proof (Hopt _ (first_days_off_feasible i Hnd Hq)) as Hle.
  rewrite !merit_model in Hle. cbn [first_days_off] in Hle. lra.
Qed.

(** ** Sums over workers and days *)

Lemma Qsum_fmap_plus {A} (f g : A -> Q) (l : list A) :
  (Qsum ((fun x => f x + g x) <$> l) == Qsum (f <$> l) + Qsum (g <$> l))%Q.
Proof.
  induction l as [|x l IH]; [reflexivity|].
  rewrite !fmap_cons, !Qsum_cons, IH. ring.
Qed.

Lemma Qsum_fmap_scale {A} (c : Q) (f : A -> Q) (l : list A) :
  (Qsum ((fun x => c * f x) <$> l) == c * Qsum (f <$> l))%Q.
Proof.
  induction l as [|x l IH]; [simpl; ring|].
  rewrite !fmap_cons, !Qsum_cons, IH. ring.
Qed.

Lemma Qsum_fmap_const {A} (c : Q) (l : list A) :
  (Qsum ((fun _ => c) <$> l) == inject_Z (Z.of_nat (length l)) * c)%Q.
Proof.
  induction l as [|x l IH]; [simpl; ring|].
  rewrite fmap_cons, Qsum_cons, IH. cbn [length].
  rewrite Nat2Z.inj_succ, <- Z.add_1_l, inject_Z_plus. ring.
Qed.

Lemma Qsum_swap {A B} (f : A -> B -> Q) (la : list A) (lb : list B) :
  (Qsum ((fun x => Qsum (f x <$> lb)) <$> la)
   == Qsum ((fun y => Qsum ((fun x => f x y) <$> la)) <$> lb))%Q.
Proof.
  induction la as [|x la IH].
  - simpl. rewrite (Qsum_fmap_const 0 lb). ring.
  - rewrite fmap_cons, Qsum_cons, IH.
    rewrite <- Qsum_fmap_plus. apply Qsum_fmap_ext. intros y _.
    by rewrite fmap_cons, Qsum_cons.
Qed.

(** X11: the days off bound the staffing from above, so they bound the
    penalty from below: in every feasible schedule, requirement minus
    penalty, summed over the days, is at most the number of worker-days
    left after the requested days off; and it is at most the number of
    names, since no day can be staffed beyond the head count. *)
Theorem penalty_average_bound `{Calendar} (i : Inputs) (a : LpVar -> Q) :
  start_date i <= end_date i ->
  feasible (model i) a ->
  (inject_Z (n_days i) * (inject_Z (n_workers_per_day i) - a penalty)
   <= Qsum ((fun w => inject_Z (n_days i - days_off_widget i w))
            <$> workers i))%Q
  /\ (inject_Z (n_workers_per_day i) - a penalty
      <= inject_Z (Z.of_nat (length (workers i))))%Q.
Proof.
  intros Hle Hfeas.
  assert (Hhead : (inject_Z (n_workers_per_day i) - a penalty
                   <= inject_Z (Z.of_nat (length (workers i))))%Q).
  { assert (Hd0 : 0 ∈ range (n_days i)) by (apply range_spec; unfold n_days; lia).
    eapply Qle_trans;
      [apply (feasible_coverage i a Hfeas 1 "hard_full_and_first_"); [by left|exact Hd0]|].
    apply Qsum_le_length. intros w Hw.
    pose proof (feasible_one_shift i a Hfeas w 0 Hw Hd0).
    destruct (feasible_binary i a Hfeas w 0 0 Hw Hd0 ltac:(elem_of_here));
      destruct (feasible_binary i a Hfeas w 0 1 Hw Hd0 ltac:(elem_of_here));
      destruct (feasible_binary i a Hfeas w 0 2 Hw Hd0 ltac:(elem_of_here));
      lra. }
  split; [|exact Hhead]. clear Hhead.
  assert (Hlen : inject_Z (n_days i)
                 = inject_Z (Z.of_nat (length (range (n_days i))))).
  { rewrite length_range. f_equal. unfold n_days. lia. }
  assert (Hday : forall day, day ∈ range (n_days i) ->
            (inject_Z (n_workers_per_day i) - a penalty
             <= Qsum ((fun w => 1 - a (Xvar w (date_str i day) 0)) <$> workers i))%Q).
  { intros day Hd.
    eapply Qle_trans;
      [apply (feasible_coverage i a Hfeas 1 "hard_full_and_first_"); [by left|done]|].
    apply Qsum_fmap_le. intros w Hw.
    pose proof (feasible_one_shift i a Hfeas w day Hw Hd).
    destruct (feasible_binary i a Hfeas w day 1 Hw Hd ltac:(elem_of_here));
      destruct (feasible_binary i a Hfeas w day 2 Hw Hd ltac:(elem_of_here));
      lra. }
  rewrite Hlen, <- (Qsum_fmap_const _ (range (n_days i))).
  eapply Qle_trans; [apply Qsum_fmap_le; exact Hday|].
  rewrite (Qsum_swap (fun day w => 1 - a (Xvar w (date_str i day) 0))%Q).
  apply Qle_lteq; right. apply Qsum_fmap_ext. intros w Hw.
  eapply Qeq_trans;
    [exact (Qsum_fmap_plus (fun _ => 1%Q)
              (fun day => - a (Xvar w (date_str i day) 0))%Q
              (range (n_days i)))|].
  rewrite Qsum_fmap_const, <- Hlen.
  assert (Hneg : (Qsum ((fun day => - a (Xvar w (date_str i day) 0)) <$> range (n_days i))
                  == - Qsum ((fun day => a (Xvar w (date_str i day) 0)) <$> range (n_days i)))%Q).
  { rewrite <- (Qsum_fmap_scale (-1)). apply Qsum_fmap_ext. intros; ring. }
  rewrite Hneg, (feasible_days_off i a Hfeas w Hw), (days_off_dict_lookup i w Hw).
  unfold Zminus. rewrite inject_Z_plus, inject_Z_opp. ring.
Qed.

(** ** The staffing read off the decoded table *)

Section TableStaffing.
Context `{Calendar}.
Variable i : Inputs.
Variable a : LpVar -> Q.
Variable varValue : LpVar -> option Q.
Hypothesis Hfeas : feasible (model i) a.
Hypothesis Hval : forall v, v ∈ variables (model i) -> varValue v = Some (a v).

(** a variable of a feasible schedule is 1 exactly when the decoded cell
    holds its label *)
Lemma decoded_indicator w day k label :
  w ∈ workers i -> day ∈ range (n_days i) -> k ∈ shift_types ->
  od_get k shift_mapping = Some label ->
  (cell_of (decode i varValue) w (date_str i day) = Some label
   /\ (a (Xvar w (date_str i day) k) == 1)%Q)
  \/ (cell_of (decode i varValue) w (date_str i day) ≠ Some label
      /\ (a (Xvar w (date_str i day) k) == 0)%Q).
Proof.
  intros Hw Hday Hk Hlabel.
  destruct (feasible_decoded_cell i a varValue Hfeas Hval w day Hw Hday)
    as (k0 & Hk0 & Hone & Hcell).
  rewrite Hcell. specialize (Hone k Hk).
  destruct (decide (k = k0)) as [->|Hne]; [by left|right].
  split; [|done]. rewrite <- Hlabel. intros Heq. apply Hne.
  elem_of_inv Hk; elem_of_inv Hk0; done.
Qed.

Lemma staffing_of_table half label day :
  half ∈ shift_types -> od_get half shift_mapping = Some label ->
  day ∈ range (n_days i) ->
  (staffing i a half day
   == table_staffing (decode i varValue) (workers i) label (date_str i day))%Q.
Proof.
  intros Hhalf Hlabel Hday. unfold staffing, table_staffing, count_label.
  rewrite (Qsum_fmap_plus (fun w => (1 # 2) * a (Xvar w (date_str i day) half))%Q
                          (fun w => a (Xvar w (date_str i day) 3))).
  rewrite Qsum_fmap_scale.
  rewrite (Qsum_count (fun w => a (Xvar w (date_str i day) half))
             (fun w => cell_of (decode i varValue) w (date_str i day) = Some label)).
  2:{ intros w Hw. by apply decoded_indicator. }
  rewrite (Qsum_count (fun w => a (Xvar w (date_str i day) 3))
             (fun w => cell_of (decode i varValue) w (date_str i day)
                       = Some "Full Day"%string)).
  2:{ intros w Hw. apply decoded_indicator; [done|done|elem_of_here|done]. }
  reflexivity.
Qed.
End TableStaffing.

(** X12: the table that is shown is staffed as the penalty says. After a
    status-1 solve, counting a 'Full Day' cell as one and a half-day cell
    as one half in its own half only, no day of the table has less than
    requirement minus penalty in either half, and the penalty is no
    larger than needed: it is 0, or some day and half has exactly
    requirement minus penalty. *)
Theorem decoded_table_staffing `{Calendar} `{Solver} (i : Inputs) :
  validated i ->
  solver_answer (model i) (solve (model i)) ->
  (solve (model i)).1 = 1 ->
  exists df p,
    st_write df ∈ app i
    /\ (solve (model i)).2 penalty = Some p
    /\ (0 <= p)%Q
    /\ (forall day, day ∈ range (n_days i) ->
          (inject_Z (n_workers_per_day i) - p
           <= table_staffing df (workers i) "First Half" (date_str i day))%Q
          /\ (inject_Z (n_workers_per_day i) - p
              <= table_staffing df (workers i) "Second Half" (date_str i day))%Q)
    /\ ((p == 0)%Q
        \/ exists day label,
             day ∈ range (n_days i)
             /\ label ∈ ["First Half"; "Second Half"]%string
             /\ (table_staffing df (workers i) label (date_str i day)
                 == inject_Z (n_workers_per_day i) - p)%Q).
Proof.
  intros Hv [Hsound _] Hst. rewrite (app_validated i Hv), Hst. cbn [Z.eqb Pos.eqb].
  destruct (Hsound Hst) as (a & Hopt & Hval).
  pose proof Hopt as [Hfeas _].
  exists (decode i (solve (model i)).2), (a penalty).
  split; [elem_of_here|].
  split; [apply Hval, penalty_in_variables|].
  split; [exact (feasible_penalty i a Hfeas)|].
  assert (H1 : forall day, day ∈ range (n_days i) ->
            (staffing i a 1 day
             == table_staffing (decode i (solve (model i)).2) (workers i)
                  "First Half" (date_str i day))%Q).
  { intros day Hday.
    apply (staffing_of_table i a _ Hfeas Hval); [elem_of_here|done|done]. }
  assert (H2 : forall day, day ∈ range (n_days i) ->
            (staffing i a 2 day
             == table_staffing (decode i (solve (model i)).2) (workers i)
                  "Second Half" (date_str i day))%Q).
  { intros day Hday.
    apply (staffing_of_table i a _ Hfeas Hval); [elem_of_here|done|done]. }
  split.
  - intros day Hday. rewrite <- (H1 day Hday), <- (H2 day Hday).
    apply shortfall_le. by apply feasible_shortfall.
  - destruct (Qlt_le_dec 0 (a penalty)) as [Hpos|Hzero].
    2:{ left. pose proof (feasible_penalty i a Hfeas). lra. }
    right.
    destruct (optimal_tight i a Hopt Hpos) as (day & Hday & [Ht|Ht]).
    + exists day, "First Half"%string.
      split; [done|]. split; [elem_of_here|]. by rewrite <- (H1 day Hday).
    + exists day, "Second Half"%string.
      split; [done|]. split; [elem_of_here|]. by rewrite <- (H2 day Hday).
Qed.

(** ** The decoder on the values of a solve *)

Lemma at_least_half_one q : (q == 1)%Q -> at_least_half (Some q) = true.
Proof. intros Hq. simpl. apply Qle_bool_iff. lra. Qed.

Lemma at_least_half_zero q : (q == 0)%Q -> at_least_half (Some q) = false.
Proof.
  intros Hq. simpl. destruct (Qle_bool (1 # 2) q) eqn:E; [|done].
  apply Qle_bool_iff in E. lra.
Qed.

(** on values that are 1 for one kind of a cell and 0 for the others both
    ways of reading the cell select that kind and nothing else *)
Lemma one_hot_selected (varValue : LpVar -> option Q) (w d : string) (k : Z) :
  k ∈ shift_types ->
  (forall k', k' ∈ shift_types ->
     exists q, varValue (Xvar w d k') = Some q
               /\ (q == if decide (k' = k) then 1 else 0)%Q) ->
  selected varValue w d = [k] /\ spec_selected varValue w d = [k].
Proof.
  intros Hk Hone.
  assert (Ht : forall k', k' ∈ shift_types ->
            truthy (varValue (Xvar w d k')) = bool_decide (k' = k)
            /\ at_least_half (varValue (Xvar w d k')) = bool_decide (k' = k)).
  { intros k' Hk'. destruct (Hone k' Hk') as (q & -> & Hq).
    case_bool_decide as Hd.
    - rewrite decide_True in Hq by done.
      split; [by apply truthy_Some_one|by apply at_least_half_one].
    - rewrite decide_False in Hq by done.
      split; [by apply truthy_Some_zero|by apply at_least_half_zero]. }
  destruct (Ht 0 ltac:(elem_of_here)) as [T0 S0].
  destruct (Ht 1 ltac:(elem_of_here)) as [T1 S1].
  destruct (Ht 2 ltac:(elem_of_here)) as [T2 S2].
  destruct (Ht 3 ltac:(elem_of_here)) as [T3 S3].
  unfold selected, spec_selected, shift_types.
  rewrite !filter_cons, filter_nil, T0, T1, T2, T3, S0, S1, S2, S3.
  elem_of_inv Hk; done.
Qed.

(** X13: on the values of a status-1 solve the decoder of the script and
    the decoder that takes the first kind with value at least 0.5 agree:
    every cell of the table holds the label either of them gives. *)
Theorem solved_values_decoders_agree `{Calendar} `{Solver} (i : Inputs) :
  validated i ->
  solver_answer (model i) (solve (model i)) ->
  (solve (model i)).1 = 1 ->
  forall w day, w ∈ workers i -> day ∈ range (n_days i) ->
    cell_label (solve (model i)).2 w (date_str i day)
    = spec_cell_label (solve (model i)).2 w (date_str i day)
    /\ cell_of (decode i (solve (model i)).2) w (date_str i day)
       = Some (spec_cell_label (solve (model i)).2 w (date_str i day))
    /\ exists k, selected (solve (model i)).2 w (date_str i day) = [k]
                 /\ spec_selected (solve (model i)).2 w (date_str i day) = [k].
Proof.
  intros Hv [Hsound _] Hst w day Hw Hday.
  destruct (Hsound Hst) as (a & [Hfeas _] & Hval).
  destruct (feasible_one_hot i a Hfeas w day Hw Hday) as (k & Hk & Hone).
  destruct (one_hot_selected (solve (model i)).2 w (date_str i day) k Hk)
    as [Hsel Hspec].
  { intros k' Hk'. exists (a (Xvar w (date_str i day) k')).
    split; [by apply Hval, xvar_in_variables|by apply Hone]. }
  assert (Heq : cell_label (solve (model i)).2 w (date_str i day)
                = spec_cell_label (solve (model i)).2 w (date_str i day)).
  { unfold cell_label, spec_cell_label. by rewrite Hsel, Hspec. }
  split; [done|]. split; [|eauto].
  rewrite <- Heq. by apply decode_cell_of.
Qed.

(** ** The decoded table, written out *)

Section OrderedDictMore.
Context {K V : Type} `{EqDecision K}.

Lemma od_get_Some_keys (k : K) (d : odict K V) :
  is_Some (od_get k d) <-> k ∈ od_keys d.
Proof.
  unfold od_keys. induction d as [|[k' v] d IH]; simpl.
  - split; [by intros [? ?]|by intros ?%elem_of_nil].
  - destruct (decide (k' = k)) as [->|Hne].
    + split; [intros _; apply list_elem_of_here|by eauto].
    + rewrite IH. split; [by apply list_elem_of_further|].
      by intros [?|?]%elem_of_cons.
Qed.

(** two dicts with the same keys in the same order, none twice, and the
    same value under every key are the same dict *)
Lemma od_ext (d1 d2 : odict K V) :
  od_keys d1 = od_keys d2 -> NoDup (od_keys d1) ->
  (forall k, k ∈ od_keys d1 -> od_get k d1 = od_get k d2) ->
  d1 = d2.
Proof.
  unfold od_keys. revert d2.
  induction d1 as [|[k v] d1 IH]; intros [|[k' v'] d2] Hkeys Hnd Hget;
    simpl in *; try done.
  injection Hkeys as <- Hkeys. apply NoDup_cons in Hnd as [Hk Hnd].
  pose proof (Hget k (list_elem_of_here _ _)) as Hv.
  rewrite !decide_True in Hv by done. injection Hv as <-.
  f_equal. apply IH; [done|done|].
  intros k0 Hk0. specialize (Hget k0 (list_elem_of_further _ _ _ Hk0)).
  rewrite !decide_False in Hget by (by intros ->). done.
Qed.

Lemma od_keys_fmap_pair {A} (g : A -> K) (h : A -> V) (l : list A) :
  od_keys ((fun x => (g x, h x)) <$> l) = g <$> l.
Proof. unfold od_keys. rewrite <- list_fmap_compose. done. Qed.

Lemma od_get_fmap_pair {A} (g : A -> K) (h : A -> V) (l : list A) (x : A) :
  x ∈ l -> (forall y, y ∈ l -> g y = g x -> h y = h x) ->
  od_get (g x) ((fun x => (g x, h x)) <$> l) = Some (h x).
Proof.
  induction l as [|y l IH]; [by intros ?%elem_of_nil|].
  intros Hx Hh. simpl. destruct (decide (g y = g x)) as [Heq|Hne].
  - f_equal. apply Hh; [apply list_elem_of_here|done].
  - apply elem_of_cons in Hx as [->|Hx]; [done|].
    apply IH; [done|]. intros z Hz. by apply Hh, list_elem_of_further.
Qed.
End OrderedDictMore.

Lemma table_keys_set_cell (df : DataFrame) (w s l : string) :
  is_Some (cell_of df w s) -> table_keys (set_cell w s l df) = table_keys df.
Proof.
  unfold cell_of, set_cell, table_keys.
  destruct (od_get w df) as [row|] eqn:Hrow; [|done]. simpl. intros Hs.
  assert (Hk : od_keys (od_set s l row) = od_keys row)
    by (by apply od_keys_set_present).
  clear Hs. induction df as [|[w' row'] df IH]; [done|].
  simpl in *. destruct (decide (w' = w)) as [->|Hne].
  - injection Hrow as ->. simpl. by rewrite Hk.
  - simpl. f_equal. by apply IH.
Qed.

Section TableShape.
Context `{Calendar}.
Variable i : Inputs.
Variable varValue : LpVar -> option Q.

Lemma keys_decode_step w s data k :
  w ∈ workers i -> s ∈ date_str i <$> range (n_days i) ->
  table_filled i data ->
  table_keys (decode_step varValue w s data k) = table_keys data
  /\ table_filled i (decode_step varValue w s data k).
Proof.
  intros Hw Hs Hall. unfold decode_step.
  destruct (truthy _); [|done]. split.
  - by apply table_keys_set_cell, Hall.
  - intros w' s' Hw' Hs'.
    destruct (decide ((w, s) = (w', s'))) as [[= <- <-]|Hne].
    + destruct (Hall w s Hw Hs) as [c Hc].
      rewrite (cell_of_set_cell_same _ _ _ _ _ Hc). eauto.
    + rewrite cell_of_set_cell_other by done. by apply Hall.
Qed.

Lemma keys_decode_cell w s data :
  w ∈ workers i -> s ∈ date_str i <$> range (n_days i) ->
  table_filled i data ->
  table_keys (decode_cell varValue s w data) = table_keys data
  /\ table_filled i (decode_cell varValue s w data).
Proof.
  intros Hw Hs. unfold decode_cell.
  change (fun data shift_type =>
            if truthy (varValue (Xvar w s shift_type))
            then set_cell w s
                   (default EmptyString (od_get shift_type shift_mapping)) data
            else data)
    with (decode_step varValue w s).
  generalize shift_types. intros ks. revert data.
  induction ks as [|k ks IH]; intros data Hdata; [done|].
  simpl. destruct (keys_decode_step w s data k Hw Hs Hdata) as [Hk1 Hk2].
  destruct (IH _ Hk2) as [Hk3 Hk4]. split; [by rewrite Hk3|done].
Qed.

Lemma keys_workers_loop s ws : forall data,
  ws ⊆ workers i -> s ∈ date_str i <$> range (n_days i) ->
  table_filled i data ->
  table_keys (fold_left (fun data worker => decode_cell varValue s worker data)
                        ws data) = table_keys data
  /\ table_filled i (fold_left (fun data worker =>
                                  decode_cell varValue s worker data) ws data).
Proof.
  induction ws as [|w ws IH]; intros data Hws Hs Hdata; [done|].
  simpl.
  destruct (keys_decode_cell w s data) as [Hc1 Hc2];
    [apply Hws, list_elem_of_here|done|done|].
  destruct (IH (decode_cell varValue s w data)) as [Hr1 Hr2];
    [intros x Hx; by apply Hws, list_elem_of_further|done|done|].
  split; [by rewrite Hr1|done].
Qed.

Lemma keys_days_loop days : forall data,
  days ⊆ range (n_days i) ->
  table_filled i data ->
  table_keys (fold_left (fun data day =>
                fold_left (fun data worker =>
                             decode_cell varValue (date_str i day) worker data)
                          (workers i) data)
                days data) = table_keys data.
Proof.
  induction days as [|day days IH]; intros data Hdays Hdata; [done|].
  simpl.
  destruct (keys_workers_loop (date_str i day) (workers i) data) as [Hr1 Hr2];
    [done|apply list_elem_of_fmap_2, Hdays, list_elem_of_here|done|].
  rewrite IH; [done| |done].
  intros x Hx. by apply Hdays, list_elem_of_further.
Qed.

Lemma table_keys_decode :
  table_keys (decode i varValue) = table_keys (blank_table i).
Proof.
  apply keys_days_loop; [done|].
  intros w s Hw Hs. rewrite blank_table_cell by done. eauto.
Qed.
End TableShape.

Lemma table_keys_get (d1 d2 : DataFrame) (w : string) (r1 : odict string string) :
  table_keys d1 = table_keys d2 -> od_get w d1 = Some r1 ->
  exists r2, od_get w d2 = Some r2 /\ od_keys r1 = od_keys r2.
Proof.
  unfold table_keys. revert d2.
  induction d1 as [|[w1 row1] d1 IH]; intros [|[w2 row2] d2] Hkeys Hget;
    simpl in *; try done.
  injection Hkeys as <- Hrow Hkeys.
  destruct (decide (w1 = w)) as [->|Hne].
  - injection Hget as <-. eauto.
  - by apply IH.
Qed.

Lemma blank_table_row `{Calendar} (i : Inputs) (w : string) :
  w ∈ workers i ->
  od_get w (blank_table i)
  = Some (od_of_items ((fun day => (date_str i day, EmptyString))
                       <$> range (n_days i))).
Proof.
  intros Hw. unfold blank_table.
  rewrite (od_get_of_items_const (fun worker : string => worker)).
  by rewrite list_fmap_id, decide_True.
Qed.

(** X14: with distinct worker names and distinct date strings the decoded
    table is, for any solver values, exactly one row per worker in the
    order of the names field and one column per date in date order, each
    cell holding the label of the last truthy kind (blank if none):
    nothing is added, dropped or reordered. *)
Theorem decoded_table_written_out `{Calendar} (i : Inputs)
    (varValue : LpVar -> option Q) :
  NoDup (workers i) ->
  NoDup (date_str i <$> range (n_days i)) ->
  decode i varValue = table_of i varValue
  /\ od_keys (decode i varValue) = workers i
  /\ forall w row, od_get w (decode i varValue) = Some row ->
       od_keys row = date_str i <$> range (n_days i).
Proof.
  intros Hws Hds.
  assert (Hkeys : od_keys (decode i varValue) = workers i)
    by (by apply decode_row_labels_distinct).
  assert (Hrows : forall w row, od_get w (decode i varValue) = Some row ->
            od_keys row = date_str i <$> range (n_days i)).
  { intros w row Hrow.
    destruct (table_keys_get _ _ w row (table_keys_decode i varValue) Hrow)
      as (row0 & Hrow0 & ->).
    assert (Hw : w ∈ workers i).
    { rewrite <- Hkeys. apply od_get_Some_keys. rewrite Hrow. eauto. }
    rewrite (blank_table_row i w Hw) in Hrow0. injection Hrow0 as <-.
    by apply (od_keys_of_items_distinct (date_str i)). }
  split; [|done].
  apply od_ext.
  - rewrite Hkeys. unfold table_of.
    rewrite (od_keys_fmap_pair (fun w : string => w)). by rewrite list_fmap_id.
  - by rewrite Hkeys.
  - intros w Hw. rewrite Hkeys in Hw. unfold table_of.
    rewrite (od_get_fmap_pair (fun w : string => w)
               (fun w => (fun day => (date_str i day,
                                      cell_label varValue w (date_str i day)))
                         <$> range (n_days i)) (workers i) w Hw)
      by (by intros y _ ->).
    assert (Hsome : is_Some (od_get w (decode i varValue))).
    { apply od_get_Some_keys. by rewrite Hkeys. }
    destruct Hsome as [row Hrow]. rewrite Hrow. f_equal.
    apply od_ext.
    + rewrite (Hrows w row Hrow).
      by rewrite (od_keys_fmap_pair (date_str i)).
    + by rewrite (Hrows w row Hrow).
    + intros s Hs. rewrite (Hrows w row Hrow) in Hs.
      apply list_elem_of_fmap in Hs as (day & -> & Hday).
      pose proof (decode_cell_of i varValue w day Hw Hday) as Hcell.
      unfold cell_of in Hcell. rewrite Hrow in Hcell. simpl in Hcell.
      rewrite Hcell. symmetry.
      apply (od_get_fmap_pair (date_str i)
               (fun day => cell_label varValue w (date_str i day))
               (range (n_days i)) day Hday).
      by intros y _ ->.
Qed.

(** ** The size of the model, lines 55-76 *)

Lemma length_bind_const {A B} (f : A -> list B) (l : list A) (n : nat) :
  (forall x, x ∈ l -> length (f x) = n) -> length (l ≫= f) = (length l * n)%nat.
Proof.
  induction l as [|x l IH]; intros Hf; [done|].
  rewrite bind_cons, length_app, IH, Hf;
    [simpl; lia|apply list_elem_of_here|].
  intros y Hy. by apply Hf, list_elem_of_further.
Qed.

Lemma NoDup_fmap_inj_on {A B} (f : A -> B) (l : list A) (x y : A) :
  NoDup (f <$> l) -> x ∈ l -> y ∈ l -> f x = f y -> x = y.
Proof.
  induction l as [|z l IH]; [by intros _ ?%elem_of_nil|].
  rewrite fmap_cons. intros [Hz Hnd]%NoDup_cons Hx Hy Heq.
  apply elem_of_cons in Hx as [->|Hx]; apply elem_of_cons in Hy as [->|Hy].
  - done.
  - exfalso. apply Hz. rewrite Heq. by apply list_elem_of_fmap_2.
  - exfalso. apply Hz. rewrite <- Heq. by apply list_elem_of_fmap_2.
  - by apply IH.
Qed.

(** X15: the model has four binary variables per worker and day, one
    exactly-one-shift constraint per worker and day, two staffing
    constraints per day and one days-off constraint per worker; with
    distinct names and date strings no two entries of the dict [x] share
    a key, so no variable is overwritten. *)
Theorem model_size `{Calendar} (i : Inputs) :
  length (x_keys i)
  = (length (workers i) * (Z.to_nat (n_days i) * 4))%nat
  /\ length (constraints (model i))
     = (Z.to_nat (n_days i) * (length (workers i) + 2)
        + length (workers i))%nat
  /\ (NoDup (workers i) -> NoDup (date_str i <$> range (n_days i)) ->
      NoDup (x_keys i)).
Proof.
  split; [|split].
  - unfold x_keys.
    apply length_bind_const. intros w _.
    rewrite (length_bind_const _ _ 4), length_range; [done|].
    intros day _. done.
  - cbn [model constraints]. rewrite length_app, length_fmap.
    rewrite (length_bind_const _ _ (length (workers i) + 2)), length_range;
      [done|].
    intros day _. rewrite length_app, length_fmap. done.
  - intros Hws Hds. unfold x_keys.
    apply NoDup_bind; [| |done].
    + intros w1 w2 key _ _ Hk1 Hk2.
      apply list_elem_of_bind in Hk1 as (d1 & Hk1 & _).
      apply list_elem_of_bind in Hk2 as (d2 & Hk2 & _).
      apply list_elem_of_bind in Hk1 as (k1 & Hk1 & _).
      apply list_elem_of_bind in Hk2 as (k2 & Hk2 & _).
      apply list_elem_of_singleton in Hk1. apply list_elem_of_singleton in Hk2.
      congruence.
    + intros w _. apply NoDup_bind.
      * intros d1 d2 key Hd1 Hd2 Hk1 Hk2.
        apply list_elem_of_bind in Hk1 as (k1 & Hk1 & _).
        apply list_elem_of_bind in Hk2 as (k2 & Hk2 & _).
        apply list_elem_of_singleton in Hk1. apply list_elem_of_singleton in Hk2.
        assert (Heq : date_str i d1 = date_str i d2) by congruence.
        by apply (NoDup_fmap_inj_on (date_str i) (range (n_days i))).
      * intros day _. apply NoDup_bind.
        -- intros k1 k2 key _ _ Hk1 Hk2.
           apply list_elem_of_singleton in Hk1. apply list_elem_of_singleton in Hk2.
           congruence.
        -- intros k _. apply NoDup_singleton.
        -- apply (bool_decide_unpack _). by vm_compute.
      * by apply NoDup_fmap_1 in Hds.
Qed.

(** ** No lookup misses its key *)

Lemma days_off_dict_get (i : Inputs) (w : string) :
  days_off_dict i !! w
  = if decide (w ∈ workers i) then Some (days_off_widget i w) else None.
Proof.
  unfold days_off_dict.
  assert (Hgen : forall ws (d : gmap string Z),
            fold_left (fun d worker => <[worker := days_off_widget i worker]> d) ws d
              !! w
            = if decide (w ∈ ws) then Some (days_off_widget i w) else d !! w).
  { induction ws as [|w0 ws IH]; intros d; cbn [fold_left].
    - rewrite decide_False; [done|]. apply not_elem_of_nil.
    - rewrite IH. destruct (decide (w ∈ ws)) as [Hin|Hnin].
      + rewrite decide_True; [done|]. by apply list_elem_of_further.
      + destruct (decide (w0 = w)) as [->|Hne].
        * rewrite decide_True by apply list_elem_of_here.
          by rewrite lookup_insert_eq.
        * rewrite decide_False.
          -- by rewrite lookup_insert_ne.
          -- intros Hin. apply elem_of_cons in Hin as [->|Hin]; done. }
  rewrite Hgen. by destruct (decide (w ∈ workers i)).
Qed.

Section StrictDecoderFacts.
Context `{Calendar}.
Variable i : Inputs.
Variable varValue : LpVar -> option Q.

Lemma set_cell_strict_filled w s l data :
  w ∈ workers i -> s ∈ date_str i <$> range (n_days i) ->
  table_filled i data ->
  set_cell_strict w s l data = Some (set_cell w s l data).
Proof.
  intros Hw Hs Hall. destruct (Hall w s Hw Hs) as [c Hc].
  unfold cell_of in Hc. unfold set_cell_strict, set_cell.
  by destruct (od_get w data).
Qed.

Lemma strict_kinds_loop w day ks : forall data,
  w ∈ workers i -> day ∈ range (n_days i) -> ks ⊆ shift_types ->
  table_filled i data ->
  fold_left (decode_step_strict i varValue w (date_str i day)) ks (Some data)
  = Some (fold_left (decode_step varValue w (date_str i day)) ks data).
Proof.
  induction ks as [|k ks IH]; intros data Hw Hday Hks Hdata; [done|].
  assert (Hk : k ∈ shift_types) by apply Hks, list_elem_of_here.
  assert (Hs : date_str i day ∈ date_str i <$> range (n_days i))
    by (by apply list_elem_of_fmap_2).
  cbn [fold_left].
  assert (Hstep : decode_step_strict i varValue w (date_str i day) (Some data) k
                  = Some (decode_step varValue w (date_str i day) data k)).
  { destruct (shift_mapping_labels k Hk) as (label & Hlabel & _).
    unfold decode_step_strict, decode_step. rewrite Hlabel.
    cbn [mbind option_bind default from_option id].
    rewrite bool_decide_eq_true_2 by (by apply x_keys_spec).
    destruct (truthy _); [|done].
    by apply set_cell_strict_filled. }
  rewrite Hstep. apply IH; [done|done| |].
  - intros x Hx. by apply Hks, list_elem_of_further.
  - by apply (keys_decode_step i varValue w (date_str i day) data k).
Qed.

Lemma decode_cell_steps w s data :
  decode_cell varValue s w data
  = fold_left (decode_step varValue w s) shift_types data.
Proof. done. Qed.

Lemma strict_workers_loop day ws : forall data,
  ws ⊆ workers i -> day ∈ range (n_days i) ->
  table_filled i data ->
  fold_left (fun acc worker =>
               fold_left (decode_step_strict i varValue worker (date_str i day))
                         shift_types acc)
            ws (Some data)
  = Some (fold_left (fun data worker =>
                       decode_cell varValue (date_str i day) worker data)
                    ws data).
Proof.
  induction ws as [|w ws IH]; intros data Hws Hday Hdata; [done|].
  assert (Hw : w ∈ workers i) by apply Hws, list_elem_of_here.
  assert (Hs : date_str i day ∈ date_str i <$> range (n_days i))
    by (by apply list_elem_of_fmap_2).
  cbn [fold_left].
  rewrite (strict_kinds_loop w day shift_types data Hw Hday) by done.
  rewrite <- decode_cell_steps. apply IH; [|done|].
  - intros x Hx. by apply Hws, list_elem_of_further.
  - by apply (keys_decode_cell i varValue w (date_str i day) data).
Qed.

Lemma strict_days_loop days : forall data,
  days ⊆ range (n_days i) -> table_filled i data ->
  fold_left (fun acc day =>
               fold_left (fun acc worker =>
                            fold_left (decode_step_strict i varValue worker
                                                          (date_str i day))
                                      shift_types acc)
                         (workers i) acc)
            days (Some data)
  = Some (fold_left (fun data day =>
                       fold_left (fun data worker =>
                                    decode_cell varValue (date_str i day) worker data)
                                 (workers i) data)
                    days data).
Proof.
  induction days as [|day days IH]; intros data Hdays Hdata; [done|].
  assert (Hday : day ∈ range (n_days i)) by apply Hdays, list_elem_of_here.
  cbn [fold_left].
  rewrite (strict_workers_loop day (workers i) data) by done.
  apply IH.
  - intros x Hx. by apply Hdays, list_elem_of_further.
  - apply (keys_workers_loop i varValue (date_str i day) (workers i) data);
      [done|by apply list_elem_of_fmap_2|done].
Qed.
End StrictDecoderFacts.

(** X16: no subscript of the script misses its key. Run with Python's
    KeyError for a missing key, the decoding loops of lines 85-91 raise
    nothing and give the table of [decode], for any solver values; every
    [x[worker, date, shift_type]] the model builder and the decoder ask
    for is a key of [x]; and [days_off_dict] holds exactly the workers,
    each with the value of its widget. *)
Theorem lookups_find_their_keys `{Calendar} (i : Inputs)
    (varValue : LpVar -> option Q) :
  decode_strict i varValue = Some (decode i varValue)
  /\ (forall w day k, w ∈ workers i -> day ∈ range (n_days i) ->
        k ∈ shift_types ->
        (w, date_str i day, k) ∈ x_keys i
        /\ is_Some (od_get k shift_mapping))
  /\ (forall w, days_off_dict i !! w
                = if decide (w ∈ workers i)
                  then Some (days_off_widget i w) else None).
Proof.
  split; [|split].
  - unfold decode_strict, decode. apply strict_days_loop; [done|].
    intros w s Hw Hs. rewrite blank_table_cell by done. eauto.
  - intros w day k Hw Hday Hk. split; [by apply x_keys_spec|].
    destruct (shift_mapping_labels k Hk) as (label & -> & _). eauto.
  - apply days_off_dict_get.
Qed.

(** ** Which requests can be solved *)

Lemma negative_quota_infeasible `{Calendar} (i : Inputs) (a : LpVar -> Q) w :
  w ∈ workers i -> days_off_widget i w < 0 -> ~ feasible (model i) a.
Proof.
  intros Hw Hneg Hfeas.
  pose proof (feasible_days_off i a Hfeas w Hw) as Hsum.
  rewrite (days_off_dict_lookup i w Hw) in Hsum.
  assert (Hnn : (0 <= Qsum ((fun day => a (Xvar w (date_str i day) 0))
                            <$> range (n_days i)))%Q).
  { apply Qsum_nonneg. intros day Hday.
    destruct (feasible_binary i a Hfeas w day 0 Hw Hday ltac:(elem_of_here)); lra. }
  rewrite Hsum in Hnn. change 0%Q with (inject_Z 0) in Hnn.
  rewrite <- Zle_Qle in Hnn. lia.
Qed.

(** X17: which requests are solved. For a request past both checks, with
    distinct date strings, the model has a feasible schedule exactly when
    every worker's requested days off lie between 0 and the number of
    days; so, with a solver that keeps its contract, the run ends with the
    table exactly then, and with 'No solution found.' exactly when some
    request is negative or exceeds the range. The required staffing never
    matters for that. *)
Theorem solved_iff_quotas_in_range `{Calendar} `{Solver} (i : Inputs) :
  validated i ->
  NoDup (date_str i <$> range (n_days i)) ->
  solver_answer (model i) (solve (model i)) ->
  ((exists a, feasible (model i) a)
   <-> forall w, w ∈ workers i -> 0 <= days_off_widget i w <= n_days i)
  /\ ((solve (model i)).1 = 1
      <-> forall w, w ∈ workers i -> 0 <= days_off_widget i w <= n_days i)
  /\ (app i = [model_solve (model i); st_error "No solution found."]
      <-> ~ forall w, w ∈ workers i -> 0 <= days_off_widget i w <= n_days i).
Proof.
  intros Hv Hnd [Hsound Hcomplete].
  assert (Hfeas : (exists a, feasible (model i) a)
                  <-> forall w, w ∈ workers i ->
                        0 <= days_off_widget i w <= n_days i).
  { split.
    - intros [a Ha] w Hw.
      destruct (Z.lt_ge_cases (days_off_widget i w) 0) as [Hneg|Hnn].
      { by destruct (negative_quota_infeasible i a w Hw Hneg). }
      destruct (Z.lt_ge_cases (n_days i) (days_off_widget i w)) as [Hex|Hin].
      { by destruct (excess_quota_infeasible i a w (proj1 Hv) Hw Hex). }
      lia.
    - intros Hq. exists (first_days_off i). by apply first_days_off_feasible. }
  assert (Hst : (solve (model i)).1 = 1
                <-> forall w, w ∈ workers i ->
                      0 <= days_off_widget i w <= n_days i).
  { rewrite <- Hfeas. split.
    - intros Hone. destruct (Hsound Hone) as (a & [Ha _] & _). eauto.
    - intros Hex. apply Hcomplete; [done|apply model_bounded]. }
  split; [done|]. split; [done|].
  rewrite <- Hst, (app_validated i Hv).
  destruct (Z.eqb_spec (solve (model i)).1 1) as [Heq|Hne].
  - split; [intros [=]|done].
  - done.
Qed.

(** ** Half days *)

Lemma x_keys_inv `{Calendar} (i : Inputs) w d k :
  (w, d, k) ∈ x_keys i ->
  w ∈ workers i /\ k ∈ shift_types
  /\ exists day, day ∈ range (n_days i) /\ d = date_str i day.
Proof.
  unfold x_keys. intros Hin.
  apply list_elem_of_bind in Hin as (w' & Hin & Hw).
  apply list_elem_of_bind in Hin as (day & Hin & Hday).
  apply list_elem_of_bind in Hin as (k' & Hin & Hk).
  apply list_elem_of_singleton in Hin. injection Hin as -> -> ->. eauto.
Qed.

Section HalfDays.
Context `{Calendar}.
Variable i : Inputs.
Variable a : LpVar -> Q.
Hypothesis Hfeas : feasible (model i) a.

Lemma full_days_domain v :
  v ∈ variables (model i) -> in_domain (declared v) (full_days a v).
Proof.
  intros Hv. destruct (variables_in_x i v Hv) as [->|(w & d & k & Hk & ->)].
  - destruct Hfeas as [Hdom _]. exact (Hdom _ Hv).
  - apply x_keys_inv in Hk as (Hw & Hk & day & Hday & ->).
    unfold in_domain. simpl. split; [done|]. split; [done|].
    pose proof (feasible_one_shift i a Hfeas w day Hw Hday) as Hsum.
    destruct (feasible_binary i a Hfeas w day 0 Hw Hday ltac:(elem_of_here));
      destruct (feasible_binary i a Hfeas w day 1 Hw Hday ltac:(elem_of_here));
      destruct (feasible_binary i a Hfeas w day 2 Hw Hday ltac:(elem_of_here));
      destruct (feasible_binary i a Hfeas w day 3 Hw Hday ltac:(elem_of_here));
      elem_of_inv Hk; simpl; try (exfalso; lra);
      first [left; lra | right; lra].
Qed.

Lemma full_days_staffing half day :
  half = 1 \/ half = 2 -> day ∈ range (n_days i) ->
  (staffing i a half day <= staffing i (full_days a) half day)%Q.
Proof.
  intros Hhalf Hday. unfold staffing. apply Qsum_fmap_le. intros w Hw.
  destruct (feasible_binary i a Hfeas w day 1 Hw Hday ltac:(elem_of_here));
    destruct (feasible_binary i a Hfeas w day 2 Hw Hday ltac:(elem_of_here));
    destruct Hhalf as [-> | ->]; simpl; lra.
Qed.

Lemma full_days_feasible : feasible (model i) (full_days a).
Proof.
  split; [exact full_days_domain|].
  apply Forall_forall. intros nc Hnc.
  apply constraints_model_inv in Hnc
    as [(w & day & Hw & Hday & ->)|[(day & Hday & Hc)|(w & Hw & ->)]].
  - unfold holds, eval. cbn -[full_days].
    change (full_days a (Xvar w (date_str i day) 0))
      with (a (Xvar w (date_str i day) 0)).
    change (full_days a (Xvar w (date_str i day) 1)) with 0%Q.
    change (full_days a (Xvar w (date_str i day) 2)) with 0%Q.
    change (full_days a (Xvar w (date_str i day) 3))
      with (a (Xvar w (date_str i day) 1) + a (Xvar w (date_str i day) 2)
            + a (Xvar w (date_str i day) 3))%Q.
    pose proof (feasible_one_shift i a Hfeas w day Hw Hday). lra.
  - assert (Hc' : exists label half,
               (half = 1 \/ half = 2)
               /\ nc = coverage i label half (date_str i day)).
    { destruct Hc as [-> | ->]; eauto 6. }
    destruct Hc' as (label & half & Hhalf & ->).
    apply holds_coverage. cbn [full_days].
    eapply Qle_trans; [|by apply full_days_staffing].
    pose proof (feasible_shortfall i a day Hfeas Hday) as Hs.
    apply shortfall_le in Hs as [H1 H2].
    destruct Hhalf as [-> | ->]; assumption.
  - unfold holds. cbn [days_off snd csense lhs rhs].
    rewrite eval_lpSum_fmap, eval_lp_const.
    rewrite <- (feasible_days_off i a Hfeas w Hw).
    apply Qsum_fmap_ext. intros day _. by rewrite eval_lp_var.
Qed.
End HalfDays.

(** X18: the model gives no reason for a half day. Turning every half day
    of a feasible schedule into a full day leaves it feasible with the
    same penalty, the same days off and no staffing lower than before; so
    the schedule made of an optimum in this way is an optimum with only
    'Off' and 'Full Day'. *)
Theorem half_days_are_dominated `{Calendar} (i : Inputs) (a : LpVar -> Q) :
  feasible (model i) a ->
  feasible (model i) (full_days a)
  /\ full_days a penalty = a penalty
  /\ (forall w d, full_days a (Xvar w d 0) = a (Xvar w d 0)
                  /\ full_days a (Xvar w d 1) = 0%Q
                  /\ full_days a (Xvar w d 2) = 0%Q)
  /\ (forall day, day ∈ range (n_days i) ->
        (staffing i a 1 day <= staffing i (full_days a) 1 day)%Q
        /\ (staffing i a 2 day <= staffing i (full_days a) 2 day)%Q)
  /\ (optimal (model i) a -> optimal (model i) (full_days a)).
Proof.
  intros Hfeas.
  pose proof (full_days_feasible i a Hfeas) as Hfull.
  split; [done|]. split; [done|]. split; [done|]. split.
  - intros day Hday. split; apply full_days_staffing; auto.
  - intros [_ Hopt]. split; [done|]. intros a' Ha'.
    eapply Qle_trans; [by apply Hopt|]. rewrite !merit_model. simpl. lra.
Qed.

Lemma half_days_are_dominated_witness :
  feasible (@model iso_calendar Examples.pair) Examples.pair_assignment
  /\ feasible (@model iso_calendar Examples.pair)
              (full_days Examples.pair_assignment)
  /\ full_days Examples.pair_assignment penalty
     = Examples.pair_assignment penalty.
Proof.
  split; [exact ExampleFacts.pair_feasible|].
  destruct (@half_days_are_dominated iso_calendar Examples.pair
              Examples.pair_assignment ExampleFacts.pair_feasible)
    as (Hf & Hp & _).
  split; [exact Hf|exact Hp].
Defined.

Lemma solved_iff_quotas_in_range_witness :
  validated Examples.pair
  /\ NoDup (@date_str iso_calendar Examples.pair <$> range (n_days Examples.pair))
  /\ solver_answer (@model iso_calendar Examples.pair)
       (@solve Examples.pair_solver (@model iso_calendar Examples.pair))
  /\ ((@solve Examples.pair_solver (@model iso_calendar Examples.pair)).1 = 1
      <-> forall w, w ∈ workers Examples.pair ->
            0 <= days_off_widget Examples.pair w <= n_days Examples.pair).
Proof.
  split; [exact ExampleFacts.pair_validated|].
  split; [exact ExampleFacts.pair_dates_distinct|].
  split; [exact ExampleFacts.pair_solver_answer|].
  destruct (@solved_iff_quotas_in_range iso_calendar Examples.pair_solver
              Examples.pair ExampleFacts.pair_validated
              ExampleFacts.pair_dates_distinct ExampleFacts.pair_solver_answer)
    as (_ & Hst & _).
  exact Hst.
Defined.

(** ** The results above on concrete runs *)

Module MoreExampleFacts.
Import Examples MoreExamples.

Lemma pair_workers_distinct : NoDup (workers pair).
Proof. apply (bool_decide_unpack _). by vm_compute. Qed.

Lemma pair_worker_A : "A"%string ∈ workers pair.
Proof. vm_compute. elem_of_here. Qed.

Lemma pair_day_0 : 0 ∈ range (n_days pair).
Proof. vm_compute. elem_of_here. Qed.

Lemma pair_dates_in_order : start_date pair <= end_date pair.
Proof. by vm_compute. Qed.

Lemma pair_solved :
  (@solve pair_solver (@model iso_calendar pair)).1 = 1.
Proof. done. Qed.
End MoreExampleFacts.

Lemma workers_are_stripped_witness :
  "A"%string ∈ workers Examples.pair
  /\ workers Examples.pair = ["A"; "B"]%string
  /\ worker_names Examples.pair = " A , B"%string
  /\ PyStr.strip "A" = "A"%string
  /\ PyStr.contains "," "A" = false.
Proof.
  split; [exact MoreExampleFacts.pair_worker_A|].
  split; [reflexivity|]. split; [reflexivity|].
  destruct (workers_are_stripped Examples.pair "A"
              MoreExampleFacts.pair_worker_A) as (_ & _ & Hs & Hc).
  split; [exact Hs|exact Hc].
Defined.

Lemma date_range_inclusive_witness :
  start_date Examples.pair <= end_date Examples.pair
  /\ head (@date_str iso_calendar Examples.pair <$> range (n_days Examples.pair))
     = Some (@strftime iso_calendar (start_date Examples.pair))
  /\ last (@date_str iso_calendar Examples.pair <$> range (n_days Examples.pair))
     = Some (@strftime iso_calendar (end_date Examples.pair))
  /\ @strftime iso_calendar (end_date Examples.pair) = "2023-08-02"%string.
Proof.
  split; [exact MoreExampleFacts.pair_dates_in_order|].
  destruct (@date_range_inclusive iso_calendar Examples.pair
              MoreExampleFacts.pair_dates_in_order) as (_ & Hh & Hl & _).
  split; [exact Hh|]. split; [exact Hl|reflexivity].
Defined.

Lemma message_text_injective_witness :
  PyStr.contains newline (contact_name MoreExamples.question) = false
  /\ PyStr.contains newline (contact_email MoreExamples.question) = false
  /\ message_text MoreExamples.question
     = message_text MoreExamples.question_draft
  /\ contact_message MoreExamples.question
     = contact_message MoreExamples.question_draft.
Proof.
  assert (Hn : PyStr.contains newline (contact_name MoreExamples.question) = false)
    by reflexivity.
  assert (He : PyStr.contains newline (contact_email MoreExamples.question) = false)
    by reflexivity.
  assert (Ht : message_text MoreExamples.question
               = message_text MoreExamples.question_draft) by reflexivity.
  split; [exact Hn|]. split; [exact He|]. split; [exact Ht|].
  destruct (message_text_injective MoreExamples.question
              MoreExamples.question_draft Hn He Hn He Ht) as (_ & _ & Hm).
  exact Hm.
Defined.

Lemma optimal_penalty_is_worst_shortfall_witness :
  optimal (@model iso_calendar (with_required Examples.pair 2))
          Examples.pair_assignment_short
  /\ (Examples.pair_assignment_short penalty
      == @worst_shortfall iso_calendar (with_required Examples.pair 2)
           Examples.pair_assignment_short)%Q
  /\ (Examples.pair_assignment_short penalty == 1)%Q.
Proof.
  split; [exact RequiredTwo.pair_two_optimal|].
  destruct (@optimal_penalty_is_worst_shortfall iso_calendar
              (with_required Examples.pair 2) Examples.pair_assignment_short
              RequiredTwo.pair_two_optimal) as (Hp & _).
  split; [exact Hp|reflexivity].
Defined.

Lemma optimal_penalty_range_witness :
  NoDup (@date_str iso_calendar Examples.pair <$> range (n_days Examples.pair))
  /\ (forall w, w ∈ workers Examples.pair ->
        0 <= days_off_widget Examples.pair w <= n_days Examples.pair)
  /\ optimal (@model iso_calendar Examples.pair) Examples.pair_assignment
  /\ (0 <= Examples.pair_assignment penalty)%Q
  /\ (Examples.pair_assignment penalty
      <= inject_Z (Z.max 0 (n_workers_per_day Examples.pair)))%Q.
Proof.
  split; [exact ExampleFacts.pair_dates_distinct|].
  split; [exact ExampleFacts.pair_quotas|].
  split; [exact ExampleFacts.pair_optimal|].
  exact (@optimal_penalty_range iso_calendar Examples.pair
           Examples.pair_assignment ExampleFacts.pair_dates_distinct
           ExampleFacts.pair_quotas ExampleFacts.pair_optimal).
Defined.

Lemma penalty_average_bound_witness :
  start_date (with_required Examples.pair 2)
  <= end_date (with_required Examples.pair 2)
  /\ feasible (@model iso_calendar (with_required Examples.pair 2))
              Examples.pair_assignment_short
  /\ (inject_Z (n_days (with_required Examples.pair 2))
      * (inject_Z (n_workers_per_day (with_required Examples.pair 2))
         - Examples.pair_assignment_short penalty)
      <= Qsum ((fun w => inject_Z (n_days (with_required Examples.pair 2)
                                   - days_off_widget (with_required Examples.pair 2) w))
               <$> workers (with_required Examples.pair 2)))%Q.
Proof.
  assert (Hle : start_date (with_required Examples.pair 2)
                <= end_date (with_required Examples.pair 2)) by (by vm_compute).
  split; [exact Hle|].
  split; [exact RequiredTwo.pair_two_feasible|].
  exact (proj1 (@penalty_average_bound iso_calendar (with_required Examples.pair 2)
                  Examples.pair_assignment_short Hle
                  RequiredTwo.pair_two_feasible)).
Defined.

Lemma decoded_table_staffing_witness :
  validated Examples.pair
  /\ solver_answer (@model iso_calendar Examples.pair)
       (@solve Examples.pair_solver (@model iso_calendar Examples.pair))
  /\ (@solve Examples.pair_solver (@model iso_calendar Examples.pair)).1 = 1
  /\ exists df p,
       st_write df ∈ @app iso_calendar Examples.pair_solver Examples.pair
       /\ (0 <= p)%Q
       /\ (inject_Z (n_workers_per_day Examples.pair) - p
           <= table_staffing df (workers Examples.pair) "First Half"
                (@date_str iso_calendar Examples.pair 0))%Q.
Proof.
  split; [exact ExampleFacts.pair_validated|].
  split; [exact ExampleFacts.pair_solver_answer|].
  split; [exact MoreExampleFacts.pair_solved|].
  destruct (@decoded_table_staffing iso_calendar Examples.pair_solver
              Examples.pair ExampleFacts.pair_validated
              ExampleFacts.pair_solver_answer MoreExampleFacts.pair_solved)
    as (df & p & Hin & _ & Hp & Hcov & _).
  exists df, p. split; [exact Hin|]. split; [exact Hp|].
  exact (proj1 (Hcov 0 MoreExampleFacts.pair_day_0)).
Defined.

Lemma solved_values_decoders_agree_witness :
  validated Examples.pair
  /\ solver_answer (@model iso_calendar Examples.pair)
       (@solve Examples.pair_solver (@model iso_calendar Examples.pair))
  /\ (@solve Examples.pair_solver (@model iso_calendar Examples.pair)).1 = 1
  /\ "A"%string ∈ workers Examples.pair
  /\ 0 ∈ range (n_days Examples.pair)
  /\ cell_of (@decode iso_calendar Examples.pair
                (@solve Examples.pair_solver (@model iso_calendar Examples.pair)).2)
             "A" (@date_str iso_calendar Examples.pair 0)
     = Some (spec_cell_label
               (@solve Examples.pair_solver (@model iso_calendar Examples.pair)).2
               "A" (@date_str iso_calendar Examples.pair 0)).
Proof.
  split; [exact ExampleFacts.pair_validated|].
  split; [exact ExampleFacts.pair_solver_answer|].
  split; [exact MoreExampleFacts.pair_solved|].
  split; [exact MoreExampleFacts.pair_worker_A|].
  split; [exact MoreExampleFacts.pair_day_0|].
  destruct (@solved_values_decoders_agree iso_calendar Examples.pair_solver
              Examples.pair ExampleFacts.pair_validated
              ExampleFacts.pair_solver_answer MoreExampleFacts.pair_solved
              "A"%string 0 MoreExampleFacts.pair_worker_A
              MoreExampleFacts.pair_day_0) as (_ & Hc & _).
  exact Hc.
Defined.

Lemma decoded_table_written_out_witness :
  NoDup (workers Examples.pair)
  /\ NoDup (@date_str iso_calendar Examples.pair <$> range (n_days Examples.pair))
  /\ @decode iso_calendar Examples.pair Examples.tie_values
     = @table_of iso_calendar Examples.pair Examples.tie_values
  /\ @table_of iso_calendar Examples.pair Examples.tie_values
     = [("A", [("2023-08-01", "Full Day"); ("2023-08-02", "Full Day")]);
        ("B", [("2023-08-01", "Full Day"); ("2023-08-02", "Full Day")])]%string.
Proof.
  split; [exact MoreExampleFacts.pair_workers_distinct|].
  split; [exact ExampleFacts.pair_dates_distinct|].
  destruct (@decoded_table_written_out iso_calendar Examples.pair
              Examples.tie_values MoreExampleFacts.pair_workers_distinct
              ExampleFacts.pair_dates_distinct) as (Heq & _).
  split; [exact Heq|reflexivity].
Defined.
